(** * PySyft: pointers, remote invocation, promises and protocol execution

    A shallow embedding of

    - [syft/core/nodes/vm/service/run_class_service.py]
      ([RunClassMethodService.process]),
    - [syft/messaging/promise.py] ([Promise]),
    - [syft/execution/protocol_execution.py] ([ProtocolExecution]),

    together with the properties of the design document that concern them.

    Python code mutates objects and raises exceptions; a mutation made
    before an exception is raised stays.  Every stateful function is
    therefore a state transformer that returns an [outcome] next to the
    state it leaves behind. *)

From stdpp Require Import base option list gmap strings.
From Stdlib Require Import ZArith Lia.

Open Scope string_scope.
Open Scope list_scope.
Open Scope Z_scope.

(** ** Exceptions and the state-and-exception monad *)

Inductive exn : Type :=
  | TypeError
  | KeyError
  | AttributeError
  | IndexError
  | NotFound
  | MethodNotFound
  | PlaceholderNotInstantiatedError.

(** [Diverged] is the answer of a fuel-bounded function whose fuel ran out;
    [Dangling] is the answer of the model when it is handed a reference that
    names no instance, which no Python execution does. *)
Inductive outcome (A : Type) : Type :=
  | Ok (a : A)
  | Raise (e : exn)
  | Diverged
  | Dangling.
Arguments Ok {A} a.
Arguments Raise {A} e.
Arguments Diverged {A}.
Arguments Dangling {A}.

Definition M (St A : Type) : Type := St → outcome A * St.

Definition ret {St A} (a : A) : M St A := fun s => (Ok a, s).

Definition bind {St A B} (m : M St A) (k : A → M St B) : M St B :=
  fun s =>
    match m s with
    | (Ok a, s') => k a s'
    | (Raise e, s') => (Raise e, s')
    | (Diverged, s') => (Diverged, s')
    | (Dangling, s') => (Dangling, s')
    end.

Definition raise {St A} (e : exn) : M St A := fun s => (Raise e, s).

(** Read-only computations: they see the state and either give a value or
    raise. *)
Definition lift {St A} (f : St → outcome A) : M St A := fun s => (f s, s).

Definition modify {St} (f : St → St) : M St unit := fun s => (Ok tt, f s).

#[global] Instance M_ret {St} : MRet (M St) := fun A a => ret a.
#[global] Instance M_bind {St} : MBind (M St) := fun A B k m => bind m k.

(** The same for computations that do not touch the state. *)
Definition obind {A B} (o : outcome A) (k : A → outcome B) : outcome B :=
  match o with
  | Ok a => k a
  | Raise e => Raise e
  | Diverged => Diverged
  | Dangling => Dangling
  end.

(** ** The remote invocation service *)

Module RunClassMethod.

Section Service.

(** Local (non-pointer) Python values are left abstract. *)
Context {Data : Type}.

(** [Pointer]: the owning node's address and the id of the pointee there. *)
Record Pointer : Type := mkPointer {
  location : string;
  id_at_location : Z
}.

(** What [issubclass(type(v), Pointer)] distinguishes. *)
Inductive Value : Type :=
  | VPointer (p : Pointer)
  | VLocal (d : Data).

(** A callable of the dispatch table: receiver, positional arguments,
    keyword arguments. *)
Definition Method : Type := Value → list Value → list (string * Value) → Value.

Record Node : Type := mkNode {
  store : gmap Z Value;
  frameworks : string → option Method
}.

Record RunClassMethodMessage : Type := mkMsg {
  path : string;
  _self : Value;
  args : list Value;
  kwargs : list (string * Value);
  msg_id_at_location : Z
}.

(** Modelled from the spec: [node.store.get_object] and
    [node.store.store_object] are not part of the sources; section 3 gives
    [get(id)], which fails with [NotFound] when the id is absent, and
    [put(id, obj)], which overwrites. *)
Definition get_object (key : Z) : M Node Value :=
  lift (fun n => match store n !! key with
                 | Some v => Ok v
                 | None => Raise NotFound
                 end).

Definition store_object (key : Z) (v : Value) : M Node unit :=
  modify (fun n => {| store := <[key := v]> (store n); frameworks := frameworks n |}).

(** Modelled from the spec: the dispatch table [node.frameworks(path)]
    raises [MethodNotFound] for an unknown path (section 4.2). *)
Definition lookup_method (p : string) : M Node Method :=
  lift (fun n => match frameworks n p with
                 | Some f => Ok f
                 | None => Raise MethodNotFound
                 end).

(** The branch repeated in steps 1a, 1b and 1c of [process]. *)
Definition resolve (v : Value) : M Node Value :=
  match v with
  | VPointer p => get_object (id_at_location p)
  | VLocal _ => ret v
  end.

(** Step 1b: the loop over [args_with_pointers], appending to
    [args_with_objects]. *)
Fixpoint resolve_args (acc : list Value) (l : list Value) : M Node (list Value) :=
  match l with
  | [] => ret acc
  | arg :: l' => (v ← resolve arg ; resolve_args (acc ++ [v]) l')
  end.

(** Step 1c as written: the loop runs over the items of the dictionary it
    was given, and would assign the resolved keyword argument into
    [args_with_objects] under its name (a [TypeError] on a list). *)
Fixpoint resolve_kwargs (items : list (string * Value)) : M Node unit :=
  match items with
  | [] => ret tt
  | (name, kwarg) :: items' =>
      (_ ← resolve kwarg; _ ← raise (A := unit) TypeError; resolve_kwargs items')
  end.

(** Steps 1 and 2 up to the call: the receiver, the positional arguments
    and the keyword arguments the method is applied to. *)
Definition call_arguments (msg : RunClassMethodMessage)
  : M Node (Value * list Value * list (string * Value)) :=
  (let self_possibly_pointer := _self msg in
   let args_with_pointers := args msg in
   (* kwargs_with_pointers = msg.kwargs   is commented out in the source *)
   let kwargs_with_objects : list (string * Value) := [] in
   self_is_object ← resolve self_possibly_pointer ;
   args_with_objects ← resolve_args [] args_with_pointers ;
   _ ← resolve_kwargs kwargs_with_objects ;
   ret (self_is_object, args_with_objects, kwargs_with_objects)).

Definition process (msg : RunClassMethodMessage) : M Node unit :=
  (let result_id_at_location := msg_id_at_location msg in
   '(self_is_object, args_with_objects, kwargs_with_objects) ← call_arguments msg ;
   f ← lookup_method (path msg) ;
   let result := f self_is_object args_with_objects kwargs_with_objects in
   store_object result_id_at_location result).

(** The uniform rule of section 4.1 as a function of the store alone. *)
Definition resolved (n : Node) (v : Value) : option Value :=
  match v with
  | VPointer p => store n !! id_at_location p
  | VLocal _ => Some v
  end.

(** What section 4.2 asks of step 1: every keyword argument resolved by
    the same rule. *)
Definition resolved_kwargs (n : Node) (kw : list (string * Value))
  : option (list (string * Value)) :=
  mapM (fun '(name, v) => pair name <$> resolved n v) kw.

(** *** Resolution never writes *)

Lemma resolve_spec (v : Value) (n : Node) :
  resolve v n =
    (match resolved n v with Some o => Ok o | None => Raise NotFound end, n).
Proof.
  destruct v as [p|d]; simpl; [|done].
  unfold get_object, lift. by destruct (store n !! id_at_location p).
Qed.

Lemma resolve_args_spec (l acc : list Value) (n : Node) :
  resolve_args acc l n =
    (match mapM (resolved n) l with
     | Some vs => Ok (acc ++ vs)
     | None => Raise NotFound
     end, n).
Proof.
  revert acc. induction l as [|a l IH]; intros acc; simpl.
  - by rewrite app_nil_r.
  - unfold mbind, M_bind, bind. rewrite resolve_spec.
    destruct (resolved n a) as [o|]; simpl; [|done].
    rewrite IH. destruct (mapM (resolved n) l) as [vs|]; simpl; [|done].
    by rewrite <- app_assoc.
Qed.

Lemma mapM_resolved_None (l : list Value) (n : Node) (a : Value) :
  a ∈ l → resolved n a = None → mapM (resolved n) l = None.
Proof.
  intros Hin Ha. destruct (mapM (resolved n) l) as [vs|] eqn:E; [|done].
  apply mapM_Some_1 in E.
  destruct (proj1 (list_elem_of_lookup l a) Hin) as [i Hi].
  destruct (Forall2_lookup_l _ _ _ _ _ E Hi) as (y & _ & Hy). congruence.
Qed.

(** The receiver and the positional arguments follow the uniform rule; the
    keyword arguments handed to the method are always empty. *)
Lemma call_arguments_spec (msg : RunClassMethodMessage) (n : Node) :
  call_arguments msg n =
    (match resolved n (_self msg), mapM (resolved n) (args msg) with
     | Some self_is_object, Some args_with_objects =>
         Ok (self_is_object, args_with_objects, [])
     | _, _ => Raise NotFound
     end, n).
Proof.
  unfold call_arguments, mbind, M_bind, bind. rewrite resolve_spec.
  destruct (resolved n (_self msg)) as [o|]; simpl; [|done].
  rewrite resolve_args_spec. by destruct (mapM (resolved n) (args msg)).
Qed.

End Service.

Arguments Pointer : clear implicits.
Arguments Value : clear implicits.
Arguments Method : clear implicits.
Arguments Node : clear implicits.
Arguments RunClassMethodMessage : clear implicits.

(** *** A request with a keyword argument *)

Definition double : Method Z := fun self _ kw =>
  match self, kw with
  | VLocal d, [] => VLocal (2 * d)
  | VLocal d, (_, VLocal k) :: _ => VLocal (2 * d + k)
  | _, _ => self
  end.

Definition node0 : Node Z :=
  {| store := {[ 7 := VLocal 42 ]};
     frameworks := fun p => if decide (p = "double") then Some double else None |}.

Definition msg_kw : RunClassMethodMessage Z :=
  {| path := "double"; _self := VPointer (mkPointer "A" 7); args := [];
     kwargs := [("k", VPointer (mkPointer "A" 7))]; msg_id_at_location := 9 |}.

Definition msg_dangling : RunClassMethodMessage Z :=
  {| path := "double"; _self := VPointer (mkPointer "A" 7);
     args := [VLocal 1; VPointer (mkPointer "A" 8)];
     kwargs := []; msg_id_at_location := 9 |}.

Definition msg_ok : RunClassMethodMessage Z :=
  {| path := "double"; _self := VPointer (mkPointer "A" 7); args := [VLocal 1];
     kwargs := []; msg_id_at_location := 7 |}.

(** C1. The receiver and the positional arguments are resolved by the uniform
    rule, but the keyword arguments are not: for the request [msg_kw], whose
    keyword argument [k] points at object 7 (which is 42), the rule gives
    [k := 42], while the method is applied to no keyword argument at all, and
    84 is stored where the resolved call gives 126. *)
Theorem process_drops_keyword_arguments :
  resolved_kwargs node0 (kwargs msg_kw) = Some [("k", VLocal 42)] ∧
  call_arguments msg_kw node0 = (Ok (VLocal 42, [], []), node0) ∧
  (process msg_kw node0).2.(store) !! 9 = Some (VLocal 84) ∧
  double (VLocal 42) [] [("k", VLocal 42)] = VLocal 126.
Proof. repeat split; vm_compute; reflexivity. Qed.

(** A request whose keyword argument points at an object that is not in the
    store. *)
Definition msg_kw_dangling : RunClassMethodMessage Z :=
  {| path := "double"; _self := VPointer (mkPointer "A" 7); args := [];
     kwargs := [("k", VPointer (mkPointer "A" 8))]; msg_id_at_location := 9 |}.

(** C5. A keyword argument that does not resolve does not make the request
    fail: for [msg_kw_dangling] the uniform rule finds no object for [k],
    yet [process] returns and writes 84 under the result id 9, which was
    free before. *)
Theorem process_stores_despite_dangling_keyword :
  resolved node0 (VPointer (mkPointer "A" 8)) = None ∧
  resolved_kwargs node0 (kwargs msg_kw_dangling) = None ∧
  store node0 !! 9 = None ∧
  process msg_kw_dangling node0 =
    (Ok tt, {| store := <[9 := VLocal 84]> (store node0); frameworks := frameworks node0 |}).
Proof. repeat split; vm_compute; reflexivity. Qed.

(** X23. When the receiver or a positional argument does not resolve, the
    request fails with [NotFound] and leaves the node as it was; when they
    all resolve and the method is found, its return value is put under the
    result id, replacing whatever was there. *)
Theorem process_not_found_or_stored {Data} (n : Node Data) (msg : RunClassMethodMessage Data) :
  ((resolved n (_self msg) = None ∨ ∃ a, a ∈ args msg ∧ resolved n a = None) →
     process msg n = (Raise NotFound, n)) ∧
  (∀ self_is_object args_with_objects f,
     resolved n (_self msg) = Some self_is_object →
     mapM (resolved n) (args msg) = Some args_with_objects →
     frameworks n (path msg) = Some f →
     process msg n =
       (Ok tt, {| store := <[msg_id_at_location msg := f self_is_object args_with_objects []]> (store n);
                  frameworks := frameworks n |})).
Proof.
  split.
  - intros H. unfold process, mbind, M_bind, bind. rewrite call_arguments_spec.
    destruct H as [-> | (a & Hin & Ha)]; [done|].
    rewrite (mapM_resolved_None _ _ _ Hin Ha). by destruct (resolved n (_self msg)).
  - intros s a f Hs Ha Hf. unfold process, mbind, M_bind, bind.
    rewrite call_arguments_spec, Hs, Ha. unfold lookup_method, lift. by rewrite Hf.
Qed.

Lemma process_not_found_or_stored_witness :
  process msg_dangling node0 = (Raise NotFound, node0) ∧
  process msg_ok node0 =
    (Ok tt, {| store := <[7 := VLocal 84]> (store node0); frameworks := frameworks node0 |}).
Proof.
  split.
  - apply (proj1 (process_not_found_or_stored node0 msg_dangling)).
    right. exists (VPointer (mkPointer "A" 8)). split; [|reflexivity].
    apply list_elem_of_In. simpl. auto.
  - apply (proj2 (process_not_found_or_stored node0 msg_ok) (VLocal 42) [VLocal 1] double);
      reflexivity.
Defined.

(** *** Further properties of [process] *)

Section MoreService.

Context {Data : Type}.

(** The same value with every pointer location rewritten by [f]. *)
Definition relocate (f : string → string) (v : Value Data) : Value Data :=
  match v with
  | VPointer p => VPointer (mkPointer (f (location p)) (id_at_location p))
  | VLocal _ => v
  end.

Definition relocate_msg (f : string → string) (msg : RunClassMethodMessage Data)
  : RunClassMethodMessage Data :=
  {| path := path msg;
     _self := relocate f (_self msg);
     args := relocate f <$> args msg;
     kwargs := (fun '(name, v) => (name, relocate f v)) <$> kwargs msg;
     msg_id_at_location := msg_id_at_location msg |}.

Lemma resolved_relocate (f : string → string) (n : Node Data) (v : Value Data) :
  resolved n (relocate f v) = resolved n v.
Proof. by destruct v. Qed.

Lemma mapM_resolved_relocate (f : string → string) (n : Node Data) (l : list (Value Data)) :
  mapM (resolved n) (relocate f <$> l) = mapM (resolved n) l.
Proof.
  induction l as [|v l IH]; [done|].
  rewrite fmap_cons. cbn [mapM]. by rewrite resolved_relocate, IH.
Qed.

Lemma process_spec (msg : RunClassMethodMessage Data) (n : Node Data) :
  process msg n =
    match resolved n (_self msg), mapM (resolved n) (args msg) with
    | Some self_is_object, Some args_with_objects =>
        match frameworks n (path msg) with
        | Some f =>
            (Ok tt,
             {| store := <[msg_id_at_location msg := f self_is_object args_with_objects []]>
                           (store n);
                frameworks := frameworks n |})
        | None => (Raise MethodNotFound, n)
        end
    | _, _ => (Raise NotFound, n)
    end.
Proof.
  unfold process, mbind, M_bind, bind. rewrite call_arguments_spec.
  destruct (resolved n (_self msg)) as [s|]; [|done].
  destruct (mapM (resolved n) (args msg)) as [a|]; [|done].
  unfold lookup_method, lift. by destruct (frameworks n (path msg)).
Qed.

(** X1. [process] never looks at the location of a pointer: a pointer is
    resolved against the store of the node that runs the service, whatever
    node it names. *)
Theorem process_ignores_locations (f : string → string)
    (msg : RunClassMethodMessage Data) (n : Node Data) :
  process (relocate_msg f msg) n = process msg n.
Proof.
  rewrite !process_spec. simpl.
  by rewrite resolved_relocate, mapM_resolved_relocate.
Qed.

(** X2. Whatever the outcome, [process] leaves the dispatch table and every
    store entry other than the one under the result id as they were; when it
    raises, the node is unchanged. *)
Theorem process_frame (msg : RunClassMethodMessage Data) (n n' : Node Data)
    (o : outcome unit) :
  process msg n = (o, n') →
  frameworks n' = frameworks n ∧
  (∀ k, k ≠ msg_id_at_location msg → store n' !! k = store n !! k) ∧
  (o ≠ Ok tt → n' = n).
Proof.
  rewrite process_spec.
  destruct (resolved n (_self msg)) as [s|];
    [destruct (mapM (resolved n) (args msg)) as [a|];
       [destruct (frameworks n (path msg)) as [f|]|]|];
    intros H; injection H as <- <-; repeat split; try done.
  intros k Hk. simpl. by rewrite lookup_insert_ne.
Qed.

(** X3. Two requests in a row, the receiver of the second being a pointer to
    the result of the first: the second method is applied to what the first
    returned, and both results are in the store afterwards. *)
Theorem process_chain (msg1 msg2 : RunClassMethodMessage Data) (n : Node Data)
    (self_is_object : Value Data) (args_with_objects : list (Value Data))
    (f1 f2 : Method Data) (loc : string) :
  resolved n (_self msg1) = Some self_is_object →
  mapM (resolved n) (args msg1) = Some args_with_objects →
  frameworks n (path msg1) = Some f1 →
  frameworks n (path msg2) = Some f2 →
  _self msg2 = VPointer (mkPointer loc (msg_id_at_location msg1)) →
  args msg2 = [] →
  let result1 := f1 self_is_object args_with_objects [] in
  (_ ← process msg1; process msg2) n =
    (Ok tt,
     {| store := <[msg_id_at_location msg2 := f2 result1 [] []]>
                   (<[msg_id_at_location msg1 := result1]> (store n));
        frameworks := frameworks n |}).
Proof.
  intros Hs Ha Hf1 Hf2 Hself Hargs result1.
  unfold mbind at 1, M_bind at 1, bind at 1.
  rewrite process_spec, Hs, Ha, Hf1. rewrite process_spec. simpl.
  rewrite Hself, Hargs. simpl. rewrite lookup_insert_eq. simpl. by rewrite Hf2.
Qed.

End MoreService.

Lemma process_chain_witness :
  (_ ← process msg_ok; process msg_kw) node0 =
    (Ok tt, {| store := <[9 := VLocal 168]> (<[7 := VLocal 84]> (store node0));
               frameworks := frameworks node0 |}).
Proof.
  apply (process_chain msg_ok msg_kw node0 (VLocal 42) [VLocal 1] double double "A");
    reflexivity.
Defined.

Lemma process_frame_witness :
  store (process msg_kw node0).2 !! 7 = store node0 !! 7.
Proof.
  destruct (process_frame msg_kw node0 (process msg_kw node0).2 (process msg_kw node0).1)
    as (_ & H & _); [by destruct (process msg_kw node0)|].
  apply H. discriminate.
Defined.

End RunClassMethod.

(** ** Protocol execution *)

Module ProtocolExecution.

Section Execution.

(** The actions of a role, the values placeholders are bound to, the role
    assignments, and everything [Role._execute_action] reads and writes
    (the template role's own placeholders, the workers) are left
    abstract. *)
Context {Action Value RoleAssignments World : Type}.

(** [self.role._execute_action(action)] is not part of the sources: it
    changes the world and returns, or raises. *)
Variable _execute_action : Action → M World unit.

(** A placeholder: an id and the value it is bound to ([None] while it has
    none). *)
Record PlaceHolder : Type := mkPlaceHolder {
  ph_id : Z;
  child : option Value
}.

Record Role : Type := mkRole {
  actions : list Action;
  role_placeholders : gmap Z PlaceHolder;
  output_placeholder_ids : list Z
}.

Record ProtocolExecution : Type := mkProtocolExecution {
  role : Role;
  placeholders : gmap Z PlaceHolder;
  role_assignments : RoleAssignments;
  _next_action_index : nat
}.

(** [__init__]: private copies of the role's placeholders, values
    cleared, and the cursor at 0. *)
Definition __init__ (r : Role) (ra : RoleAssignments) : ProtocolExecution :=
  {| role := r;
     placeholders := (fun ph => {| ph_id := ph_id ph; child := None |}) <$> role_placeholders r;
     role_assignments := ra;
     _next_action_index := 0 |}.

Definition advance (pe : ProtocolExecution) : ProtocolExecution :=
  {| role := role pe;
     placeholders := placeholders pe;
     role_assignments := role_assignments pe;
     _next_action_index := S (_next_action_index pe) |}.

(** The [for] loop of [execute] over the slice it was started with.  The
    answer is [Some r] when the body returned [r] from inside the loop and
    [None] when the loop ran to its end. *)
Fixpoint run_actions (slice : list Action)
  : M (ProtocolExecution * World) (option (bool * option (list (option Value)))) :=
  match slice with
  | [] => ret None
  | action :: slice' => fun '(pe, w) =>
      match _execute_action action w with
      | (Ok _, w') => run_actions slice' (advance pe, w')
      | (Raise PlaceholderNotInstantiatedError, w') => (Ok (Some (false, None)), (pe, w'))
      | (Raise e, w') => (Raise e, (pe, w'))
      | (Diverged, w') => (Diverged, (pe, w'))
      | (Dangling, w') => (Dangling, (pe, w'))
      end
  end.

(** [self.placeholders[output_id]] for each output id, in order. *)
Fixpoint output_placeholders (phs : gmap Z PlaceHolder) (ids : list Z)
  : outcome (list PlaceHolder) :=
  match ids with
  | [] => Ok []
  | output_id :: ids' =>
      match phs !! output_id with
      | None => Raise KeyError
      | Some p => obind (output_placeholders phs ids') (fun ps => Ok (p :: ps))
      end
  end.

Definition execute : M (ProtocolExecution * World) (bool * option (list (option Value))) :=
  fun '(pe, w) =>
    match run_actions (drop (_next_action_index pe) (actions (role pe))) (pe, w) with
    | (Ok (Some r), st) => (Ok r, st)
    | (Ok None, (pe', w')) =>
        if decide (length (output_placeholder_ids (role pe')) = 0%nat)
        then (Ok (true, None), (pe', w'))
        else
          (obind (output_placeholders (placeholders pe') (output_placeholder_ids (role pe')))
                 (fun ps => Ok (true, Some (child <$> ps))),
           (pe', w'))
    | (Raise e, st) => (Raise e, st)
    | (Diverged, st) => (Diverged, st)
    | (Dangling, st) => (Dangling, st)
    end.

(** Running a list of actions one after the other, all of them
    returning. *)
Fixpoint all_executed (l : list Action) (w : World) : option World :=
  match l with
  | [] => Some w
  | a :: l' =>
      match _execute_action a w with
      | (Ok _, w') => all_executed l' w'
      | _ => None
      end
  end.

Definition with_index (pe : ProtocolExecution) (i : nat) : ProtocolExecution :=
  {| role := role pe;
     placeholders := placeholders pe;
     role_assignments := role_assignments pe;
     _next_action_index := i |}.

(** *** The loop *)

Lemma with_index_same (pe : ProtocolExecution) :
  with_index pe (_next_action_index pe) = pe.
Proof. by destruct pe. Qed.

Lemma with_index_advance (pe : ProtocolExecution) (k : nat) :
  with_index (advance pe) k = with_index pe k.
Proof. done. Qed.

Lemma run_actions_blocked (done_ : list Action) (a : Action) (rest : list Action)
    (pe : ProtocolExecution) (w w1 w2 : World) :
  all_executed done_ w = Some w1 →
  _execute_action a w1 = (Raise PlaceholderNotInstantiatedError, w2) →
  run_actions (done_ ++ a :: rest) (pe, w) =
    (Ok (Some (false, None)),
     (with_index pe (_next_action_index pe + length done_), w2)).
Proof.
  revert pe w. induction done_ as [|d done_ IH]; intros pe w Hall Hblock; simpl in *.
  - injection Hall as ->. rewrite Hblock, Nat.add_0_r. by rewrite with_index_same.
  - destruct (_execute_action d w) as [[[]| | |] w'] eqn:E; try discriminate.
    rewrite (IH (advance pe) w' Hall Hblock), with_index_advance. simpl.
    do 3 f_equal. lia.
Qed.

Lemma output_placeholders_spec (phs : gmap Z PlaceHolder) (ids : list Z) (ps : list PlaceHolder) :
  mapM (fun i => phs !! i) ids = Some ps → output_placeholders phs ids = Ok ps.
Proof.
  revert ps. induction ids as [|i ids IH]; intros ps H; simpl in *.
  - by injection H as <-.
  - destruct (phs !! i) as [p|]; simpl in H; [|done].
    destruct (mapM (fun i => phs !! i) ids) as [ps'|]; simpl in H; [|done].
    injection H as <-. by rewrite (IH ps').
Qed.

End Execution.

Arguments PlaceHolder : clear implicits.
Arguments Role : clear implicits.
Arguments ProtocolExecution : clear implicits.

(** C6. When the actions from the cursor on are [done_], which all return,
    followed by an action [a] that raises [PlaceholderNotInstantiatedError],
    [execute] returns [(False, None)] without raising, and the cursor stops
    on [a]. *)
Theorem execute_blocks_on_uninstantiated {Action Value RoleAssignments World}
    (_execute_action : Action → M World unit)
    (pe : ProtocolExecution Action Value RoleAssignments) (w w1 w2 : World)
    (done_ : list Action) (a : Action) (rest : list Action) :
  drop (_next_action_index pe) (actions (role pe)) = done_ ++ a :: rest →
  all_executed _execute_action done_ w = Some w1 →
  _execute_action a w1 = (Raise PlaceholderNotInstantiatedError, w2) →
  execute _execute_action (pe, w) =
    (Ok (false, None), (with_index pe (_next_action_index pe + length done_), w2)) ∧
  actions (role pe) !! (_next_action_index pe + length done_)%nat = Some a.
Proof.
  intros Hslice Hall Hblock. split.
  - unfold execute. rewrite Hslice.
    by rewrite (run_actions_blocked _ _ _ _ _ _ _ _ Hall Hblock).
  - rewrite <- lookup_drop, Hslice.
    rewrite lookup_app_r by lia. by rewrite Nat.sub_diag.
Qed.

(** C7. With the cursor at the end of the action list, [execute] runs no
    action and changes nothing; it returns [(True, None)] when the role has
    no output placeholder, and otherwise [True] with the tuple of the values
    its output placeholders are bound to; calling it again gives the same
    answer. *)
Theorem execute_completed_replay {Action Value RoleAssignments World}
    (_execute_action : Action → M World unit)
    (pe : ProtocolExecution Action Value RoleAssignments) (w : World) :
  _next_action_index pe = length (actions (role pe)) →
  (output_placeholder_ids (role pe) = [] →
     execute _execute_action (pe, w) = (Ok (true, None), (pe, w))) ∧
  (∀ ps, output_placeholder_ids (role pe) ≠ [] →
     mapM (fun i => placeholders pe !! i) (output_placeholder_ids (role pe)) = Some ps →
     execute _execute_action (pe, w) = (Ok (true, Some (child <$> ps)), (pe, w))) ∧
  (∀ r st, execute _execute_action (pe, w) = (r, st) →
     st = (pe, w) ∧ execute _execute_action st = (r, st)).
Proof.
  intros Hend.
  assert (Hdrop : drop (_next_action_index pe) (actions (role pe)) = [])
    by (rewrite Hend; apply drop_all).
  assert (Hsame : ∀ r st, execute _execute_action (pe, w) = (r, st) → st = (pe, w)).
  { intros r st. unfold execute. rewrite Hdrop. simpl.
    destruct (decide _); intros H; by injection H. }
  split; [|split].
  - intros Hout. unfold execute. rewrite Hdrop. simpl. by rewrite Hout.
  - intros ps Hne Hps. unfold execute. rewrite Hdrop. simpl.
    rewrite decide_False by (by destruct (output_placeholder_ids (role pe))).
    by rewrite (output_placeholders_spec _ _ _ Hps).
  - intros r st H. pose proof (Hsame r st H) as ->. by split.
Qed.

(** *** A role with two actions: [ph3 := ph1 + ph2], then [ph5 := ph3 + ph4]

    The world of this example is the valuation of the role's placeholders,
    which is what [Role._execute_action] works on. *)

Definition add_action (a : Z * Z * Z) : M (gmap Z Z) unit :=
  fun w =>
    let '(x, y, z) := a in
    match w !! x, w !! y with
    | Some vx, Some vy => (Ok tt, <[z := vx + vy]> w)
    | _, _ => (Raise PlaceholderNotInstantiatedError, w)
    end.

Definition role_add : Role (Z * Z * Z) Z :=
  {| actions := [(1, 2, 3); (3, 4, 5)];
     role_placeholders :=
       {[ 1 := mkPlaceHolder 1 None; 2 := mkPlaceHolder 2 None; 3 := mkPlaceHolder 3 None;
          4 := mkPlaceHolder 4 None; 5 := mkPlaceHolder 5 None ]};
     output_placeholder_ids := [5] |}.

Definition pe_add : ProtocolExecution (Z * Z * Z) Z unit := __init__ role_add tt.

(** An execution of [role_add] with the cursor at the end and its output
    placeholder bound. *)
Definition pe_add_completed : ProtocolExecution (Z * Z * Z) Z unit :=
  {| role := role_add;
     placeholders :=
       {[ 1 := mkPlaceHolder 1 (Some 4); 2 := mkPlaceHolder 2 (Some 3);
          3 := mkPlaceHolder 3 (Some 7); 4 := mkPlaceHolder 4 (Some 1);
          5 := mkPlaceHolder 5 (Some 8) ]};
     role_assignments := tt;
     _next_action_index := 2 |}.

(** With placeholder 4 unset the first action runs and the second blocks;
    once it is set, [execute] resumes at the second action and completes. *)
Example execute_resumes :
  execute add_action (pe_add, {[ 1 := 4; 2 := 3 ]}) =
    (Ok (false, None), (advance pe_add, {[ 1 := 4; 2 := 3; 3 := 7 ]})) ∧
  execute add_action (advance pe_add, {[ 1 := 4; 2 := 3; 3 := 7; 4 := 1 ]}) =
    (Ok (true, Some [None]),
     (advance (advance pe_add), {[ 1 := 4; 2 := 3; 3 := 7; 4 := 1; 5 := 8 ]})).
Proof. split; vm_compute; reflexivity. Qed.

Lemma execute_blocks_on_uninstantiated_witness :
  execute add_action (pe_add, {[ 1 := 4; 2 := 3 ]}) =
    (Ok (false, None), (with_index pe_add 1, {[ 1 := 4; 2 := 3; 3 := 7 ]})) ∧
  actions (role pe_add) !! 1%nat = Some (3, 4, 5).
Proof.
  apply (execute_blocks_on_uninstantiated add_action pe_add
           {[ 1 := 4; 2 := 3 ]} {[ 1 := 4; 2 := 3; 3 := 7 ]} {[ 1 := 4; 2 := 3; 3 := 7 ]}
           [(1, 2, 3)] (3, 4, 5) []);
    vm_compute; reflexivity.
Defined.

Lemma execute_completed_replay_witness :
  execute add_action (pe_add_completed, ∅) = (Ok (true, Some [Some 8]), (pe_add_completed, ∅)).
Proof.
  apply (proj1 (proj2 (execute_completed_replay add_action pe_add_completed ∅ eq_refl))
           [mkPlaceHolder 5 (Some 8)]); [discriminate | reflexivity].
Defined.

(** *** Further properties of [execute] *)

Section MoreExecution.

Context {Action Value RoleAssignments World : Type}.
Variable _execute_action : Action → M World unit.

Abbreviation PE := (ProtocolExecution Action Value RoleAssignments).

(** What [execute] returns once the loop has run to its end. *)
Definition completion (pe : PE) : outcome (bool * option (list (option Value))) :=
  if decide (length (output_placeholder_ids (role pe)) = 0%nat)
  then Ok (true, None)
  else obind (output_placeholders (placeholders pe) (output_placeholder_ids (role pe)))
             (fun ps => Ok (true, Some (child <$> ps))).

(** What [execute] answers when the loop stops on an action that did not
    return: [(False, None)] for [PlaceholderNotInstantiatedError], the
    action's own failure otherwise. *)
Definition stopped (oa : outcome unit) : outcome (bool * option (list (option Value))) :=
  match oa with
  | Ok _ => Ok (false, None)
  | Raise PlaceholderNotInstantiatedError => Ok (false, None)
  | Raise e => Raise e
  | Diverged => Diverged
  | Dangling => Dangling
  end.

Lemma with_index_with_index (pe : PE) (i j : nat) :
  with_index (with_index pe i) j = with_index pe j.
Proof. done. Qed.

(** The loop, whatever happens: [k] actions return, and then either the
    slice is over, or the next action raises. *)
Lemma run_actions_inv (slice : list Action) (pe pe' : PE) (w w' : World)
    (o : outcome (option (bool * option (list (option Value))))) :
  run_actions _execute_action slice (pe, w) = (o, (pe', w')) →
  ∃ k wk,
    (k ≤ length slice)%nat ∧
    pe' = with_index pe (_next_action_index pe + k) ∧
    all_executed _execute_action (take k slice) w = Some wk ∧
    match o with
    | Ok None => k = length slice ∧ w' = wk
    | Ok (Some r) =>
        r = (false, None) ∧
        ∃ a, slice !! k = Some a ∧
             _execute_action a wk = (Raise PlaceholderNotInstantiatedError, w')
    | Raise e =>
        e ≠ PlaceholderNotInstantiatedError ∧
        ∃ a, slice !! k = Some a ∧ _execute_action a wk = (Raise e, w')
    | Diverged => ∃ a, slice !! k = Some a ∧ _execute_action a wk = (Diverged, w')
    | Dangling => ∃ a, slice !! k = Some a ∧ _execute_action a wk = (Dangling, w')
    end.
Proof.
  revert pe w. induction slice as [|a slice IH]; intros pe w H; simpl in H.
  - injection H as <- <- <-. exists 0%nat, w. rewrite Nat.add_0_r, with_index_same. by repeat split.
  - destruct (_execute_action a w) as [[[]|e| |] w1] eqn:E.
    + destruct (IH _ _ H) as (k & wk & Hk & -> & Hall & Ho).
      exists (S k), wk. simpl. rewrite E. repeat split; try lia; try done.
      * rewrite with_index_advance. simpl. f_equal. lia.
      * destruct o as [[r|]| | |]; try done. destruct Ho as [-> ->]. done.
    + exists 0%nat, w. rewrite Nat.add_0_r, with_index_same. simpl.
      destruct e; injection H as <- <- <-; repeat split; try lia; try done; eauto.
    + injection H as <- <- <-. exists 0%nat, w. rewrite Nat.add_0_r, with_index_same.
      simpl. repeat split; try lia; eauto.
    + injection H as <- <- <-. exists 0%nat, w. rewrite Nat.add_0_r, with_index_same.
      simpl. repeat split; try lia; eauto.
Qed.

Lemma run_actions_all (slice : list Action) (pe : PE) (w w1 : World) :
  all_executed _execute_action slice w = Some w1 →
  run_actions _execute_action slice (pe, w) =
    (Ok None, (with_index pe (_next_action_index pe + length slice), w1)).
Proof.
  revert pe w. induction slice as [|a slice IH]; intros pe w H; simpl in *.
  - injection H as ->. by rewrite Nat.add_0_r, with_index_same.
  - destruct (_execute_action a w) as [[[]| | |] w'] eqn:E; try discriminate.
    rewrite (IH (advance pe) w' H), with_index_advance. simpl. do 3 f_equal. lia.
Qed.

Lemma run_actions_raises (done_ : list Action) (a : Action) (rest : list Action)
    (pe : PE) (w w1 w2 : World) (e : exn) :
  e ≠ PlaceholderNotInstantiatedError →
  all_executed _execute_action done_ w = Some w1 →
  _execute_action a w1 = (Raise e, w2) →
  run_actions _execute_action (done_ ++ a :: rest) (pe, w) =
    (Raise e, (with_index pe (_next_action_index pe + length done_), w2)).
Proof.
  intros He. revert pe w. induction done_ as [|d done_ IH]; intros pe w Hall Hr; simpl in *.
  - injection Hall as ->. rewrite Hr, Nat.add_0_r, with_index_same. by destruct e.
  - destruct (_execute_action d w) as [[[]| | |] w'] eqn:E; try discriminate.
    rewrite (IH (advance pe) w' Hall Hr), with_index_advance. simpl. do 3 f_equal. lia.
Qed.

Lemma execute_at_end (pe : PE) (w : World) :
  (length (actions (role pe)) ≤ _next_action_index pe)%nat →
  execute _execute_action (pe, w) = (completion pe, (pe, w)).
Proof.
  intros Hend. unfold execute, completion. rewrite drop_ge by done. simpl.
  by destruct (decide _).
Qed.

End MoreExecution.

(** X4. Whatever the outcome, [execute] changes nothing of the execution but
    its cursor.  The cursor moves forward by exactly the number [k] of
    actions that returned: the first [k] actions from the old cursor on
    returned one after the other, and either they were all that was left,
    and [execute] answers as a completed execution in the world they
    produced, or the next action did not return, and [execute] stops there
    with that action's world and failure ([(False, None)] for a placeholder
    that is not instantiated).  A cursor within the action list stays
    within it. *)
Theorem execute_moves_cursor_forward {Action Value RoleAssignments World}
    (_execute_action : Action → M World unit)
    (pe pe' : ProtocolExecution Action Value RoleAssignments) (w w' : World)
    (o : outcome (bool * option (list (option Value)))) :
  execute _execute_action (pe, w) = (o, (pe', w')) →
  let slice := drop (_next_action_index pe) (actions (role pe)) in
  ∃ k wk,
    pe' = with_index pe (_next_action_index pe + k) ∧
    all_executed _execute_action (take k slice) w = Some wk ∧
    ((k = length slice ∧ w' = wk ∧ o = completion pe') ∨
     (∃ a oa, slice !! k = Some a ∧
              _execute_action a wk = (oa, w') ∧
              (∀ u, oa ≠ Ok u) ∧
              o = stopped oa)) ∧
    (_next_action_index pe ≤ length (actions (role pe)) →
     _next_action_index pe' ≤ length (actions (role pe)))%nat.
Proof.
  intros H slice. unfold execute in H. fold slice in H.
  destruct (run_actions _ _ _) as [o1 [pe1 w1]] eqn:Hrun.
  apply run_actions_inv in Hrun as (k & wk & Hk & Hpe & Hall & Ho).
  exists k, wk.
  assert (pe' = pe1 ∧ w' = w1) as [-> ->].
  { destruct o1 as [[r|]| | |]; try (by injection H as _ <- <-).
    destruct (decide _); by injection H as _ <- <-. }
  split; [done|]. split; [done|]. split.
  - destruct o1 as [[r|]|e| |].
    + right. destruct Ho as (-> & a & Ha & Hex). injection H as <-.
      exists a, (Raise PlaceholderNotInstantiatedError). by repeat split.
    + left. destruct Ho as [-> ->]. repeat split.
      unfold completion. destruct (decide _); by injection H as <-.
    + right. destruct Ho as (He & a & Ha & Hex). injection H as <-.
      exists a, (Raise e). repeat split; try done. by destruct e.
    + right. destruct Ho as (a & Ha & Hex). injection H as <-.
      exists a, Diverged. by repeat split.
    + right. destruct Ho as (a & Ha & Hex). injection H as <-.
      exists a, Dangling. by repeat split.
  - intros Hle. subst pe1. simpl. unfold slice in Hk. rewrite length_drop in Hk. lia.
Qed.

(** X5. An action that raises anything but
    [PlaceholderNotInstantiatedError] makes [execute] raise the same
    exception, with the cursor left on that action. *)
Theorem execute_propagates_other_exceptions {Action Value RoleAssignments World}
    (_execute_action : Action → M World unit)
    (pe : ProtocolExecution Action Value RoleAssignments) (w w1 w2 : World)
    (done_ : list Action) (a : Action) (rest : list Action) (e : exn) :
  e ≠ PlaceholderNotInstantiatedError →
  drop (_next_action_index pe) (actions (role pe)) = done_ ++ a :: rest →
  all_executed _execute_action done_ w = Some w1 →
  _execute_action a w1 = (Raise e, w2) →
  execute _execute_action (pe, w) =
    (Raise e, (with_index pe (_next_action_index pe + length done_), w2)).
Proof.
  intros He Hslice Hall Hr. unfold execute. rewrite Hslice.
  by rewrite (run_actions_raises _ _ _ _ _ _ _ _ _ He Hall Hr).
Qed.

(** X6. A blocked execution resumes where it stopped: when the first call
    blocks on [a] after running [done_], and the actions from [a] on all
    return in the world of the second call, the second call runs exactly
    these, leaves the cursor at the end of the action list and answers as
    a completed execution does. *)
Theorem execute_resumes_at_blocked_action {Action Value RoleAssignments World}
    (_execute_action : Action → M World unit)
    (pe : ProtocolExecution Action Value RoleAssignments) (w w1 w2 w3 w4 : World)
    (done_ : list Action) (a : Action) (rest : list Action) :
  drop (_next_action_index pe) (actions (role pe)) = done_ ++ a :: rest →
  all_executed _execute_action done_ w = Some w1 →
  _execute_action a w1 = (Raise PlaceholderNotInstantiatedError, w2) →
  all_executed _execute_action (a :: rest) w3 = Some w4 →
  let blocked := with_index pe (_next_action_index pe + length done_) in
  let completed := with_index pe (length (actions (role pe))) in
  execute _execute_action (pe, w) = (Ok (false, None), (blocked, w2)) ∧
  execute _execute_action (blocked, w3) = (completion completed, (completed, w4)).
Proof.
  intros Hslice Hall Hblock Hrest blocked completed.
  split.
  - unfold execute. rewrite Hslice.
    by rewrite (run_actions_blocked _ _ _ _ _ _ _ _ Hall Hblock).
  - assert (Hlen : (_next_action_index pe + length done_ + length (a :: rest) =
                    length (actions (role pe)))%nat).
    { pose proof (f_equal length Hslice) as Hl.
      rewrite length_drop, length_app in Hl. simpl in *. lia. }
    assert (Hdrop : drop (_next_action_index blocked) (actions (role blocked)) = a :: rest).
    { simpl. rewrite <- drop_drop, Hslice. by rewrite drop_app_length. }
    unfold execute. rewrite Hdrop, (run_actions_all _ _ _ _ _ Hrest).
    unfold blocked. rewrite with_index_with_index. simpl _next_action_index.
    rewrite Hlen. fold completed. unfold completion.
    by destruct (decide _).
Qed.

(** X22. When every action from the cursor on returns, [execute] runs them
    all, in order, leaves the cursor at the end of the action list and
    answers as a completed execution does. *)
Theorem execute_runs_to_completion {Action Value RoleAssignments World}
    (_execute_action : Action → M World unit)
    (pe : ProtocolExecution Action Value RoleAssignments) (w w1 : World) :
  (_next_action_index pe ≤ length (actions (role pe)))%nat →
  all_executed _execute_action (drop (_next_action_index pe) (actions (role pe))) w = Some w1 →
  let completed := with_index pe (length (actions (role pe))) in
  execute _execute_action (pe, w) = (completion completed, (completed, w1)).
Proof.
  intros Hle Hall completed. unfold execute.
  rewrite (run_actions_all _ _ _ _ _ Hall), length_drop.
  replace (_next_action_index pe + (length (actions (role pe)) - _next_action_index pe))%nat
    with (length (actions (role pe))) by lia.
  fold completed. unfold completion. by destruct (decide _).
Qed.

(** X7. [execute] reads its outputs from the execution's own placeholders,
    which [__init__] clears and [execute] never assigns: an execution fresh
    from [__init__] that completes with outputs returns [None] for each of
    them, whatever its actions did. *)
Theorem execute_fresh_outputs_unbound {Action Value RoleAssignments World}
    (_execute_action : Action → M World unit)
    (r : Role Action Value) (ra : RoleAssignments) (w : World)
    (vals : list (option Value)) (st : ProtocolExecution Action Value RoleAssignments * World) :
  execute _execute_action (__init__ r ra, w) = (Ok (true, Some vals), st) →
  vals = replicate (length (output_placeholder_ids r)) None.
Proof.
  unfold execute. intros H.
  destruct (run_actions _ _ _) as [o1 [pe1 w1]] eqn:Hrun.
  apply run_actions_inv in Hrun as (k & wk & _ & Hpe & _ & Ho).
  destruct o1 as [[res|]| | |]; try discriminate.
  { destruct Ho as [-> _]. discriminate. }
  subst pe1. simpl in H. destruct (decide _); [discriminate|].
  assert (Hout : ∀ ids ps,
            output_placeholders ((fun ph : PlaceHolder Value =>
                                    {| ph_id := ph_id ph; child := None |})
                                 <$> role_placeholders r) ids = Ok ps →
            child <$> ps = replicate (length ids) (@None Value)).
  { induction ids as [|i ids IH]; intros ps Hps; simpl in Hps.
    - by injection Hps as <-.
    - rewrite lookup_fmap in Hps. destruct (role_placeholders r !! i) as [ph|]; simpl in Hps;
        [|discriminate].
      destruct (output_placeholders _ ids) as [ps'| | |]; simpl in Hps; try discriminate.
      injection Hps as <-. simpl. f_equal. by apply IH. }
  destruct (output_placeholders _ _) as [ps| | |] eqn:Hps; simpl in H; try discriminate.
  injection H as <- _. by apply Hout.
Qed.

(** An action that raises [KeyError] when its second operand is missing. *)
Definition strict_add_action (a : Z * Z * Z) : M (gmap Z Z) unit :=
  fun w =>
    let '(x, y, z) := a in
    match w !! x, w !! y with
    | Some vx, Some vy => (Ok tt, <[z := vx + vy]> w)
    | Some _, None => (Raise KeyError, w)
    | None, _ => (Raise PlaceholderNotInstantiatedError, w)
    end.

Lemma execute_moves_cursor_forward_witness :
  ∃ k wk,
    with_index pe_add 1 = with_index pe_add (0 + k) ∧
    all_executed add_action (take k (actions role_add)) {[ 1 := 4; 2 := 3 ]} = Some wk ∧
    ((k = 2%nat ∧ ({[ 1 := 4; 2 := 3; 3 := 7 ]} : gmap Z Z) = wk ∧
      Ok (false, None) = completion (with_index pe_add 1)) ∨
     (∃ a oa, actions role_add !! k = Some a ∧
              add_action a wk = (oa, {[ 1 := 4; 2 := 3; 3 := 7 ]}) ∧
              (∀ u, oa ≠ Ok u) ∧
              Ok (false, None) = stopped (Value := Z) oa)) ∧
    (0 ≤ 2 → 1 ≤ 2)%nat.
Proof.
  apply (execute_moves_cursor_forward add_action pe_add (with_index pe_add 1)
           {[ 1 := 4; 2 := 3 ]} {[ 1 := 4; 2 := 3; 3 := 7 ]} (Ok (false, None))).
  vm_compute. reflexivity.
Defined.

Lemma execute_propagates_other_exceptions_witness :
  execute strict_add_action (pe_add, {[ 1 := 4; 2 := 3 ]}) =
    (Raise KeyError, (with_index pe_add 1, {[ 1 := 4; 2 := 3; 3 := 7 ]})).
Proof.
  apply (execute_propagates_other_exceptions strict_add_action pe_add
           {[ 1 := 4; 2 := 3 ]} {[ 1 := 4; 2 := 3; 3 := 7 ]} {[ 1 := 4; 2 := 3; 3 := 7 ]}
           [(1, 2, 3)] (3, 4, 5) [] KeyError);
    [discriminate | vm_compute; reflexivity ..].
Defined.

Lemma execute_resumes_at_blocked_action_witness :
  execute add_action (pe_add, {[ 1 := 4; 2 := 3 ]}) =
    (Ok (false, None), (with_index pe_add 1, {[ 1 := 4; 2 := 3; 3 := 7 ]})) ∧
  execute add_action (with_index pe_add 1, {[ 1 := 4; 2 := 3; 3 := 7; 4 := 1 ]}) =
    (Ok (true, Some [None]),
     (with_index pe_add 2, {[ 1 := 4; 2 := 3; 3 := 7; 4 := 1; 5 := 8 ]})).
Proof.
  apply (execute_resumes_at_blocked_action add_action pe_add
           {[ 1 := 4; 2 := 3 ]} {[ 1 := 4; 2 := 3; 3 := 7 ]} {[ 1 := 4; 2 := 3; 3 := 7 ]}
           {[ 1 := 4; 2 := 3; 3 := 7; 4 := 1 ]} {[ 1 := 4; 2 := 3; 3 := 7; 4 := 1; 5 := 8 ]}
           [(1, 2, 3)] (3, 4, 5) []);
    vm_compute; reflexivity.
Defined.

Lemma execute_runs_to_completion_witness :
  execute add_action (pe_add, {[ 1 := 4; 2 := 3; 4 := 1 ]}) =
    (Ok (true, Some [None]),
     (with_index pe_add 2, {[ 1 := 4; 2 := 3; 3 := 7; 4 := 1; 5 := 8 ]})).
Proof.
  apply (execute_runs_to_completion add_action pe_add {[ 1 := 4; 2 := 3; 4 := 1 ]}
           {[ 1 := 4; 2 := 3; 3 := 7; 4 := 1; 5 := 8 ]});
    [simpl; lia | vm_compute; reflexivity].
Defined.

Lemma execute_fresh_outputs_unbound_witness :
  [None] = replicate (length (output_placeholder_ids role_add)) (@None Z).
Proof.
  apply (execute_fresh_outputs_unbound add_action role_add tt
           {[ 1 := 4; 2 := 3; 4 := 1 ]} [None]
           (with_index pe_add 2, {[ 1 := 4; 2 := 3; 3 := 7; 4 := 1; 5 := 8 ]})).
  vm_compute. reflexivity.
Defined.

End ProtocolExecution.

(** ** Promises: the worker, its object store and the promises it owns *)

Module Promise.

Section Worker.

(** The payload of a tensor is left abstract. *)
Context {Data : Type}.

(** What [keep] is given and what a plan returns: an object with an [id]
    and a declared [type()]. *)
Record Tensor : Type := mkTensor {
  tensor_id : Z;
  tensor_type : string;
  tensor_data : Data
}.

(** A plan as [keep] sees it.  [promised_args] is a dictionary from
    argument positions to promise ids, kept in insertion order. *)
Record Plan : Type := mkPlan {
  plan_id : Z;
  arg_ids : list Z;
  promised_args : list (nat * Z);
  promise_out_id : Z
}.

(** Instances of [Promise] are mutable and shared: they are named by a
    reference into [promise_heap].  What [owner._objects] holds is a
    tensor, a plan, or a wrapper whose [child] is a promise. *)
Inductive Obj : Type :=
  | OTensor (t : Tensor)
  | OWrapper (child : nat)
  | OPlan (p : Plan).

(** The attributes [__init__] assigns, [owner] apart: every promise of
    the heap is owned by the one worker modelled here.  [plans] is a set;
    the list gives its iteration order. *)
Record Promise : Type := mkPromise {
  _id : Z;
  queue_obj_ids : list Z;
  obj_type : option string;
  plans : list Z
}.

Record Worker : Type := mkWorker {
  promise_heap : gmap nat Promise;
  _objects : gmap Z Obj
}.

(** Invoking a plan on its arguments is not part of the sources. *)
Variable call_plan : Plan → list Obj → Tensor.

Definition with_queue (p : Promise) (q : list Z) : Promise :=
  {| _id := _id p; queue_obj_ids := q; obj_type := obj_type p; plans := plans p |}.

(** *** Primitive accesses *)

Definition get_promise (r : nat) : M Worker Promise :=
  lift (fun w => match promise_heap w !! r with
                 | Some p => Ok p
                 | None => Dangling
                 end).

Definition set_queue (r : nat) (q : list Z) : M Worker unit :=
  modify (fun w => {| promise_heap := alter (fun p => with_queue p q) r (promise_heap w);
                      _objects := _objects w |}).

(** [self.owner._objects[key]] *)
Definition lookup_object (key : Z) : M Worker Obj :=
  lift (fun w => match _objects w !! key with
                 | Some o => Ok o
                 | None => Raise KeyError
                 end).

(** Modelled from the spec: [owner.register_obj] and [owner.rm_obj] are
    not part of the sources; section 3 gives [put(id, obj)], which
    overwrites, and [remove(id)], which deletes and does nothing when the
    id is absent. *)
Definition register_obj (obj : Tensor) : M Worker unit :=
  modify (fun w => {| promise_heap := promise_heap w;
                      _objects := <[tensor_id obj := OTensor obj]> (_objects w) |}).

Definition rm_obj (key : Z) : M Worker unit :=
  modify (fun w => {| promise_heap := promise_heap w;
                      _objects := delete key (_objects w) |}).

(** [o.child] *)
Definition child_of (o : Obj) : M Worker nat :=
  match o with
  | OWrapper r => ret r
  | _ => raise AttributeError
  end.

Definition as_plan (o : Obj) : M Worker Plan :=
  match o with
  | OPlan p => ret p
  | _ => raise AttributeError
  end.

(** [queue_obj_ids.pop(0)] on the promise at [r] *)
Definition pop_front (r : nat) : M Worker Z :=
  p ← get_promise r;
  match queue_obj_ids p with
  | [] => raise IndexError
  | front :: rest => _ ← set_queue r rest; ret front
  end.

(** [is_kept] *)
Definition is_kept (p : Promise) : bool :=
  bool_decide (queue_obj_ids p ≠ []).

(** Dictionary access on [promised_args]: [i in d] and [d[i]]. *)
Fixpoint dict_get (d : list (nat * Z)) (i : nat) : option Z :=
  match d with
  | [] => None
  | (k, v) :: d' => if decide (k = i) then Some v else dict_get d' i
  end.

(** Modelled from the spec: [plan.has_args_fulfilled()] is not part of
    the sources; by section 3 it holds exactly when every position of
    [promised_args] has its referenced promise currently kept. *)
Definition promise_kept (w : Worker) (promise_id : Z) : bool :=
  match _objects w !! promise_id with
  | Some (OWrapper r) =>
      match promise_heap w !! r with
      | Some p => is_kept p
      | None => false
      end
  | _ => false
  end.

Definition has_args_fulfilled (plan : Plan) (w : Worker) : bool :=
  forallb (promise_kept w) (promised_args plan).*2.

(** *** Firing a plan *)

(** The loop [for i, arg_id in enumerate(plan.arg_ids)]. *)
Fixpoint collect_args (plan : Plan) (i : nat) (ids : list Z) (args : list Obj)
  : M Worker (list Obj) :=
  match ids with
  | [] => ret args
  | arg_id :: ids' =>
      match dict_get (promised_args plan) i with
      | Some promise_id =>
          wrapper ← lookup_object promise_id;
          r ← child_of wrapper;
          p ← get_promise r;
          match queue_obj_ids p with
          | [] => raise IndexError
          | front :: _ =>
              o ← lookup_object front;
              collect_args plan (S i) ids' (args ++ [o])
          end
      | None =>
          o ← lookup_object arg_id;
          collect_args plan (S i) ids' (args ++ [o])
      end
  end.

(** The loop [for promise_id in plan.promised_args.values()]. *)
Fixpoint remove_from_queues (promise_ids : list Z) : M Worker unit :=
  match promise_ids with
  | [] => ret tt
  | promise_id :: rest =>
      wrapper ← lookup_object promise_id;
      r ← child_of wrapper;
      to_rm ← pop_front r;
      _ ← rm_obj to_rm;
      remove_from_queues rest
  end.

(** One firing: collect the arguments, invoke the plan, consume the
    queues.  It returns the arguments next to the result. *)
Definition fire (plan : Plan) : M Worker (list Obj * Tensor) :=
  args ← collect_args plan 0 (arg_ids plan) [];
  let result := call_plan plan args in
  _ ← remove_from_queues (promised_args plan).*2;
  ret (args, result).

(** *** [keep] *)

(** The loop [for plan_id in self.plans]; [keep_rec] is [keep] on the
    plan's output promise. *)
Fixpoint for_plans (keep_rec : nat → Tensor → M Worker Tensor) (plan_ids : list Z)
  : M Worker unit :=
  match plan_ids with
  | [] => ret tt
  | plan_id :: rest =>
      o ← lookup_object plan_id;
      plan ← as_plan o;
      fulfilled ← lift (fun w => Ok (has_args_fulfilled plan w));
      _ ← (if fulfilled : bool then
             '(_, result) ← fire plan;
             out ← lookup_object (promise_out_id plan);
             r ← child_of out;
             _ ← keep_rec r result;
             ret tt
           else ret tt);
      for_plans keep_rec rest
  end.

(** The body of [keep], with the recursive call as a parameter.  The
    [print] on entry writes to standard output only and is left out. *)
Definition keep_body (keep_rec : nat → Tensor → M Worker Tensor)
    (self : nat) (obj : Tensor) : M Worker Tensor :=
  p ← get_promise self;
  if decide (Some (tensor_type obj) ≠ obj_type p) then raise TypeError
  else
    registered ← lift (fun w => Ok (bool_decide (is_Some (_objects w !! _id p))));
    _ ← (if registered : bool then register_obj obj else ret tt);
    _ ← set_queue self (queue_obj_ids p ++ [tensor_id obj]);
    _ ← for_plans keep_rec (plans p);
    ret obj.

(** A cascade of firings need not end; [fuel] bounds its depth. *)
Fixpoint keep (fuel : nat) : nat → Tensor → M Worker Tensor :=
  match fuel with
  | O => fun _ _ w => (Diverged, w)
  | S fuel' => keep_body (keep fuel')
  end.

(** *** [value] *)

Definition value (self : nat) : M Worker (option Obj) :=
  p ← get_promise self;
  match queue_obj_ids p with
  | [] => ret None
  | _ :: _ =>
      ret_id ← pop_front self;
      o ← lookup_object ret_id;
      _ ← rm_obj ret_id;
      ret (Some o)
  end.

(** The worker after the first half of a well-typed [keep]: the object
    registered when the promise's own id is bound in the store, and its id
    appended to the queue. *)
Definition kept (self : nat) (p : Promise) (obj : Tensor) (w : Worker) : Worker :=
  {| promise_heap :=
       <[self := with_queue p (queue_obj_ids p ++ [tensor_id obj])]> (promise_heap w);
     _objects :=
       if bool_decide (is_Some (_objects w !! _id p))
       then <[tensor_id obj := OTensor obj]> (_objects w)
       else _objects w |}.

(** The worker after a [value] that returns: the front of the queue
    popped and the object deleted. *)
Definition consumed (self : nat) (p : Promise) (front : Z) (rest : list Z) (w : Worker)
  : Worker :=
  {| promise_heap := <[self := with_queue p rest]> (promise_heap w);
     _objects := delete front (_objects w) |}.

(** *** Basic facts *)

Lemma alter_with_queue (h : gmap nat Promise) (r : nat) (p : Promise) (q : list Z) :
  h !! r = Some p → alter (fun p => with_queue p q) r h = <[r := with_queue p q]> h.
Proof.
  intros Hr. apply map_eq. intros i. rewrite lookup_alter, lookup_insert.
  case_decide; [subst; by rewrite Hr | done].
Qed.

Lemma keep_unfold (fuel : nat) (self : nat) (obj : Tensor) (p : Promise) (w : Worker) :
  promise_heap w !! self = Some p →
  obj_type p = Some (tensor_type obj) →
  keep (S fuel) self obj w =
    (_ ← for_plans (keep fuel) (plans p); ret obj) (kept self p obj w).
Proof.
  intros Hp Hty. simpl. unfold keep_body, kept.
  unfold mbind, M_bind, bind, get_promise, lift at 1. rewrite Hp.
  rewrite decide_False by (rewrite Hty; tauto).
  unfold lift. simpl.
  destruct (bool_decide (is_Some (_objects w !! _id p))); simpl;
    by rewrite (alter_with_queue _ _ _ _ Hp).
Qed.

(** *** Collecting the arguments of a firing *)




(** *** Consuming the queues *)




End Worker.

Arguments Tensor : clear implicits.
Arguments Obj : clear implicits.
Arguments Worker : clear implicits.

(** C4. Keeping a promise with an object whose type is not the promised one
    raises [TypeError] and leaves the promise's queue and the store as they
    were. *)
Theorem keep_type_mismatch {Data} (call_plan : Plan → list (Obj Data) → Tensor Data)
    (fuel : nat) (self : nat) (obj : Tensor Data) (p : Promise) (w : Worker Data) :
  promise_heap w !! self = Some p →
  obj_type p ≠ Some (tensor_type obj) →
  keep call_plan (S fuel) self obj w = (Raise TypeError, w).
Proof.
  intros Hp Hty. simpl. unfold keep_body, mbind, M_bind, bind, get_promise, lift.
  rewrite Hp. by rewrite decide_True by congruence.
Qed.

(** C2, as the code has it.  A well-typed [keep] registers the object when
    the promise's own id is bound in the owner's store (whether or not the
    object is already there), appends the object's id to the queue, and
    then runs the loop over the waiting plans; with no waiting plan it
    returns the object it was given, and whenever it returns, it returns
    that object. *)
Theorem keep_fulfils {Data} (call_plan : Plan → list (Obj Data) → Tensor Data)
    (fuel : nat) (self : nat) (obj : Tensor Data) (p : Promise) (w : Worker Data) :
  promise_heap w !! self = Some p →
  obj_type p = Some (tensor_type obj) →
  keep call_plan (S fuel) self obj w =
    (_ ← for_plans call_plan (keep call_plan fuel) (plans p); ret obj) (kept self p obj w) ∧
  (plans p = [] → keep call_plan (S fuel) self obj w = (Ok obj, kept self p obj w)) ∧
  (∀ v w', keep call_plan (S fuel) self obj w = (Ok v, w') → v = obj).
Proof.
  intros Hp Hty. pose proof (keep_unfold call_plan fuel self obj p w Hp Hty) as Hk.
  split; [done|]. split.
  - intros Hplans. rewrite Hk, Hplans. done.
  - intros v w'. rewrite Hk. unfold mbind, M_bind, bind.
    destruct (for_plans _ _ _ _) as [[[]| | |] w'']; intros H; try discriminate.
    by injection H as <- _.
Qed.

(** C8, as the code has it.  [value] does not wait: on an empty queue it
    returns [None] and changes nothing; on a queue whose front id is bound
    in the owner's store it pops that id, deletes the object from the store
    and returns it. *)
Theorem value_polls {Data} (self : nat) (p : Promise) (w : Worker Data) :
  promise_heap w !! self = Some p →
  (queue_obj_ids p = [] → value self w = (Ok None, w)) ∧
  (∀ front rest o,
     queue_obj_ids p = front :: rest →
     _objects w !! front = Some o →
     value self w = (Ok (Some o), consumed self p front rest w)).
Proof.
  intros Hp. split.
  - intros Hq. unfold value, mbind, M_bind, bind, get_promise, lift.
    by rewrite Hp, Hq.
  - intros front rest o Hq Ho.
    unfold value, pop_front, mbind, M_bind, bind, get_promise, lift.
    rewrite Hp, Hq. simpl. rewrite Hp, Hq. simpl. rewrite Ho.
    unfold consumed. by rewrite (alter_with_queue _ _ _ _ Hp).
Qed.


(** *** A worker with two promises feeding one plan *)

Definition t7 : Tensor Z := mkTensor 7 "int" 42.
Definition t8 : Tensor Z := mkTensor 8 "int" 1.
Definition t9 : Tensor Z := mkTensor 9 "str" 0.

(** The plan adds up the payloads of its tensor arguments. *)
Definition payload (o : Obj Z) : Z :=
  match o with
  | OTensor t => tensor_data t
  | _ => 0
  end.

Definition call_sum (plan : Plan) (args : list (Obj Z)) : Tensor Z :=
  mkTensor (100 + plan_id plan) "int" (foldr Z.add 0 (payload <$> args)).

Definition plan20 : Plan :=
  {| plan_id := 20; arg_ids := [0; 0]; promised_args := [(0%nat, 10); (1%nat, 11)];
     promise_out_id := 12 |}.

Definition promise_a : Promise := mkPromise 10 [7] (Some "int") [20].
Definition promise_b : Promise := mkPromise 11 [] (Some "int") [20].
Definition promise_c : Promise := mkPromise 12 [] (Some "int") [].

(** Promise [a] already kept with tensor 7, promise [b] still open. *)
Definition w_waiting : Worker Z :=
  {| promise_heap := {[ 0%nat := promise_a; 1%nat := promise_b; 2%nat := promise_c ]};
     _objects := {[ 10 := OWrapper 0; 11 := OWrapper 1; 12 := OWrapper 2;
                    20 := OPlan plan20; 7 := OTensor t7 ]} |}.


Definition w_fired : Worker Z :=
  {| promise_heap := {[ 0%nat := with_queue promise_a []; 1%nat := promise_b;
                        2%nat := promise_c ]};
     _objects := {[ 10 := OWrapper 0; 11 := OWrapper 1; 12 := OWrapper 2;
                    20 := OPlan plan20 ]} |}.

(** The whole cascade: the plan fires once, its result 43 is kept by the
    output promise, and the two fulfillments are gone. *)
Example keep_cascade :
  keep call_sum 2 1 t8 w_waiting =
    (Ok t8,
     {| promise_heap := {[ 0%nat := with_queue promise_a []; 1%nat := promise_b;
                           2%nat := with_queue promise_c [120] ]};
        _objects := {[ 10 := OWrapper 0; 11 := OWrapper 1; 12 := OWrapper 2;
                       20 := OPlan plan20; 120 := OTensor (mkTensor 120 "int" 43) ]} |}).
Proof. vm_compute. reflexivity. Qed.








Lemma keep_type_mismatch_witness :
  keep call_sum 1 1 t9 w_waiting = (Raise TypeError, w_waiting).
Proof. apply (keep_type_mismatch call_sum 0 1 t9 promise_b w_waiting); [reflexivity | discriminate]. Defined.

(** *** A promise that is not registered with its owner *)

Definition promise_bare : Promise := mkPromise 10 [] (Some "int") [].

Definition w_bare : Worker Z :=
  {| promise_heap := {[ 0%nat := promise_bare ]}; _objects := ∅ |}.

Definition w_bare_kept : Worker Z :=
  {| promise_heap := {[ 0%nat := with_queue promise_bare [7] ]}; _objects := ∅ |}.

(** C2 as the document states it, for a promise with no waiting plan: the
    call returns the object, its id is appended to the queue, and the object
    is in the store afterwards, put there by the call when it was absent. *)
Definition keep_registers_if_absent {Data} (call_plan : Plan → list (Obj Data) → Tensor Data)
    (fuel : nat) (self : nat) (obj : Tensor Data) (w : Worker Data) : Prop :=
  ∀ p, promise_heap w !! self = Some p →
       obj_type p = Some (tensor_type obj) →
       plans p = [] →
       ∃ w' p',
         keep call_plan fuel self obj w = (Ok obj, w') ∧
         promise_heap w' !! self = Some p' ∧
         queue_obj_ids p' = queue_obj_ids p ++ [tensor_id obj] ∧
         _objects w' !! tensor_id obj =
           Some (default (OTensor obj) (_objects w !! tensor_id obj)).

(** C2 fails on a promise whose own id is not bound in the owner's store:
    tensor 7 is not in the store before the call and not after it. *)
Lemma keep_leaves_object_unregistered :
  ¬ keep_registers_if_absent call_sum 1 0 t7 w_bare.
Proof.
  intros H. destruct (H promise_bare eq_refl eq_refl eq_refl) as (w' & p' & Hk & _ & _ & Ho).
  vm_compute in Hk. injection Hk as <-. vm_compute in Ho. discriminate.
Qed.

Lemma keep_fulfils_witness :
  keep call_sum 1 0 t7 w_bare = (Ok t7, w_bare_kept) ∧
  keep call_sum 1 2 t8 w_waiting =
    (Ok t8, {| promise_heap := <[2%nat := with_queue promise_c [8]]> (promise_heap w_waiting);
               _objects := <[8 := OTensor t8]> (_objects w_waiting) |}).
Proof.
  split.
  - apply (proj1 (proj2 (keep_fulfils call_sum 0 0 t7 promise_bare w_bare eq_refl eq_refl)) eq_refl).
  - apply (proj1 (proj2 (keep_fulfils call_sum 0 2 t8 promise_c w_waiting eq_refl eq_refl)) eq_refl).
Defined.

(** C8 as the document states it: on a non-empty queue [value] returns an
    object, with the front popped and that id no longer stored. *)
Definition value_returns_front {Data} (self : nat) (w : Worker Data) : Prop :=
  ∀ p front rest,
    promise_heap w !! self = Some p →
    queue_obj_ids p = front :: rest →
    ∃ o w',
      value self w = (Ok (Some o), w') ∧
      promise_heap w' !! self = Some (with_queue p rest) ∧
      _objects w' !! front = None.

(** C8 fails after a [keep] that did not register the object: the queue
    holds id 7, the store does not, and [value] raises [KeyError]. *)
Lemma value_raises_on_unregistered_object :
  keep call_sum 1 0 t7 w_bare = (Ok t7, w_bare_kept) ∧
  (value 0 w_bare_kept).1 = Raise KeyError ∧
  ¬ value_returns_front 0 w_bare_kept.
Proof.
  split; [vm_compute; reflexivity|]. split; [vm_compute; reflexivity|].
  intros H. destruct (H (with_queue promise_bare [7]) 7 [] eq_refl eq_refl) as (o & w' & Hv & _).
  vm_compute in Hv. discriminate.
Qed.

Lemma value_polls_witness :
  value 2 w_waiting = (Ok None, w_waiting) ∧
  value 0 w_waiting = (Ok (Some (OTensor t7)), consumed 0 promise_a 7 [] w_waiting).
Proof.
  destruct (value_polls 2 promise_c w_waiting eq_refl) as [Hnone _].
  destruct (value_polls 0 promise_a w_waiting eq_refl) as [_ Hsome].
  split; [apply Hnone; reflexivity | apply (Hsome 7 [] (OTensor t7)); reflexivity].
Defined.

(** *** Further properties of [keep], [value] and of a firing *)

Section MoreWorker.

Context {Data : Type}.
Variable call_plan : Plan → list (Obj Data) → Tensor Data.

Lemma with_queue_same (p : Promise) : with_queue p (queue_obj_ids p) = p.
Proof. by destruct p. Qed.

Lemma with_queue_with_queue (p : Promise) (q q' : list Z) :
  with_queue (with_queue p q) q' = with_queue p q'.
Proof. done. Qed.

Lemma value_unfold (self : nat) (p : Promise) (front : Z) (rest : list Z) (w : Worker Data) :
  promise_heap w !! self = Some p →
  queue_obj_ids p = front :: rest →
  value self w =
    match _objects w !! front with
    | Some o => (Ok (Some o), consumed self p front rest w)
    | None => (Raise KeyError,
               {| promise_heap := <[self := with_queue p rest]> (promise_heap w);
                  _objects := _objects w |})
    end.
Proof.
  intros Hp Hq. unfold value, pop_front, mbind, M_bind, bind, get_promise, lift.
  rewrite Hp, Hq. simpl. rewrite Hp, Hq. simpl.
  rewrite (alter_with_queue _ _ _ _ Hp). by destruct (_objects w !! front).
Qed.

Lemma collect_args_readonly (plan : Plan) (ids : list Z) (i : nat) (acc : list (Obj Data))
    (w w' : Worker Data) (o : outcome (list (Obj Data))) :
  collect_args plan i ids acc w = (o, w') → w' = w.
Proof.
  revert i acc. induction ids as [|arg_id ids IH]; intros i acc H; simpl in H.
  - by injection H as _ <-.
  - unfold mbind, M_bind, bind, lookup_object, get_promise, lift in H.
    destruct (dict_get (promised_args plan) i) as [promise_id|].
    + destruct (_objects w !! promise_id) as [[t|r|pl]|]; simpl in H;
        try (by injection H as _ <-).
      destruct (promise_heap w !! r) as [p|]; simpl in H; try (by injection H as _ <-).
      destruct (queue_obj_ids p) as [|front rest]; simpl in H; try (by injection H as _ <-).
      destruct (_objects w !! front) as [ob|]; simpl in H; try (by injection H as _ <-).
      by apply IH in H.
    + destruct (_objects w !! arg_id) as [ob|]; simpl in H; try (by injection H as _ <-).
      by apply IH in H.
Qed.

Lemma keep_no_plans (fuel : nat) (self : nat) (obj : Tensor Data) (p : Promise)
    (w : Worker Data) :
  promise_heap w !! self = Some p →
  obj_type p = Some (tensor_type obj) →
  plans p = [] →
  keep call_plan (S fuel) self obj w = (Ok obj, kept self p obj w).
Proof.
  intros Hp Hty Hplans. by rewrite (keep_unfold call_plan fuel self obj p w Hp Hty), Hplans.
Qed.

Lemma for_plans_unfulfilled (keep_rec : nat → Tensor Data → M (Worker Data) (Tensor Data))
    (plan_ids : list Z) (w : Worker Data) :
  (∀ plan_id, plan_id ∈ plan_ids →
     ∃ plan, _objects w !! plan_id = Some (OPlan plan) ∧ has_args_fulfilled plan w = false) →
  for_plans call_plan keep_rec plan_ids w = (Ok tt, w).
Proof.
  induction plan_ids as [|plan_id plan_ids IH]; intros H; [done|].
  destruct (H plan_id) as (plan & Hplan & Hful); [by left|].
  simpl. unfold mbind, M_bind, bind, lookup_object, lift. rewrite Hplan. simpl.
  rewrite Hful. simpl. apply IH. intros pid Hin. apply H. by right.
Qed.

Lemma collect_args_promised (plan : Plan) (i : nat) (arg_id : Z) (ids : list Z)
    (acc : list (Obj Data)) (w : Worker Data) (promise_id : Z) (r : nat) (p : Promise)
    (front : Z) (rest : list Z) (o : Obj Data) :
  dict_get (promised_args plan) i = Some promise_id →
  _objects w !! promise_id = Some (OWrapper r) →
  promise_heap w !! r = Some p →
  queue_obj_ids p = front :: rest →
  _objects w !! front = Some o →
  collect_args plan i (arg_id :: ids) acc w = collect_args plan (S i) ids (acc ++ [o]) w.
Proof.
  intros Hd Hw Hp Hq Ho. simpl. rewrite Hd.
  unfold mbind, M_bind, bind, lookup_object, get_promise, lift.
  rewrite Hw. simpl. rewrite Hp, Hq. by rewrite Ho.
Qed.

Lemma remove_from_queues_pop (promise_id : Z) (promise_ids : list Z) (w : Worker Data)
    (r : nat) (p : Promise) (front : Z) (rest : list Z) :
  _objects w !! promise_id = Some (OWrapper r) →
  promise_heap w !! r = Some p →
  queue_obj_ids p = front :: rest →
  remove_from_queues (promise_id :: promise_ids) w =
    remove_from_queues promise_ids (consumed r p front rest w).
Proof.
  intros Hw Hp Hq. simpl.
  unfold mbind, M_bind, bind, lookup_object, lift. rewrite Hw. simpl.
  unfold pop_front, mbind, M_bind, bind, get_promise, lift. rewrite Hp, Hq. simpl.
  unfold consumed. by rewrite (alter_with_queue _ _ _ _ Hp).
Qed.

Lemma remove_from_queues_empty (promise_id : Z) (promise_ids : list Z) (w : Worker Data)
    (r : nat) (p : Promise) :
  _objects w !! promise_id = Some (OWrapper r) →
  promise_heap w !! r = Some p →
  queue_obj_ids p = [] →
  remove_from_queues (promise_id :: promise_ids) w = (Raise IndexError, w).
Proof.
  intros Hw Hp Hq. simpl.
  unfold mbind, M_bind, bind, lookup_object, lift. rewrite Hw. simpl.
  unfold pop_front, mbind, M_bind, bind, get_promise, lift. by rewrite Hp, Hq.
Qed.

Lemma for_plans_fires (keep_rec : nat → Tensor Data → M (Worker Data) (Tensor Data))
    (plan_id : Z) (rest : list Z) (plan : Plan) (w w2 : Worker Data)
    (args : list (Obj Data)) (result : Tensor Data) (r_out : nat) :
  _objects w !! plan_id = Some (OPlan plan) →
  has_args_fulfilled plan w = true →
  fire call_plan plan w = (Ok (args, result), w2) →
  _objects w2 !! promise_out_id plan = Some (OWrapper r_out) →
  for_plans call_plan keep_rec (plan_id :: rest) w =
    (_ ← keep_rec r_out result; for_plans call_plan keep_rec rest) w2.
Proof.
  intros Hplan Hful Hfire Hout. simpl.
  unfold mbind, M_bind, bind, lookup_object, lift. rewrite Hplan. simpl.
  rewrite Hful, Hfire, Hout. simpl.
  by destruct (keep_rec r_out result w2) as [[?| | |] ?].
Qed.

End MoreWorker.

(** X8. [value] pops the queue before it looks the object up: when the
    front id is not in the owner's store it raises [KeyError] and the entry
    is gone from the queue all the same. *)
Theorem value_loses_entry_on_key_error {Data} (self : nat) (p : Promise) (w : Worker Data)
    (front : Z) (rest : list Z) :
  promise_heap w !! self = Some p →
  queue_obj_ids p = front :: rest →
  _objects w !! front = None →
  value self w =
    (Raise KeyError,
     {| promise_heap := <[self := with_queue p rest]> (promise_heap w);
        _objects := _objects w |}).
Proof. intros Hp Hq Ho. by rewrite (value_unfold self p front rest w Hp Hq), Ho. Qed.

(** X9. On a promise that is registered with its owner, has no waiting plan
    and an empty queue, [keep] followed by [value] hands back the object
    that was kept; the promise is as before and the object's id is no longer
    in the store. *)
Theorem keep_then_value {Data} (call_plan : Plan → list (Obj Data) → Tensor Data)
    (fuel : nat) (self : nat) (obj : Tensor Data) (p : Promise) (w : Worker Data) :
  promise_heap w !! self = Some p →
  obj_type p = Some (tensor_type obj) →
  plans p = [] →
  queue_obj_ids p = [] →
  is_Some (_objects w !! _id p) →
  (_ ← keep call_plan (S fuel) self obj; value self) w =
    (Ok (Some (OTensor obj)),
     {| promise_heap := promise_heap w;
        _objects := delete (tensor_id obj) (_objects w) |}).
Proof.
  intros Hp Hty Hplans Hq Hreg.
  unfold mbind at 1, M_bind at 1, bind at 1.
  rewrite (keep_no_plans call_plan fuel self obj p w Hp Hty Hplans).
  rewrite (value_unfold self (with_queue p (queue_obj_ids p ++ [tensor_id obj]))
             (tensor_id obj) [] (kept self p obj w));
    [|apply lookup_insert_eq | by rewrite Hq].
  unfold kept, consumed. simpl. rewrite bool_decide_eq_true_2 by done.
  rewrite lookup_insert_eq. f_equal. f_equal.
  - rewrite insert_insert_eq, with_queue_with_queue, <- Hq, with_queue_same.
    by apply insert_id.
  - by rewrite delete_insert_eq.
Qed.

(** X10. The queue is first in, first out: after keeping [a] and then [b]
    (different ids) on a registered promise with no waiting plan and an
    empty queue, the first [value] returns [a] and the second returns
    [b]. *)
Theorem keep_value_fifo {Data} (call_plan : Plan → list (Obj Data) → Tensor Data)
    (fuel : nat) (self : nat) (a b : Tensor Data) (p : Promise) (w : Worker Data) :
  promise_heap w !! self = Some p →
  obj_type p = Some (tensor_type a) →
  obj_type p = Some (tensor_type b) →
  plans p = [] →
  queue_obj_ids p = [] →
  is_Some (_objects w !! _id p) →
  tensor_id a ≠ tensor_id b →
  (_ ← keep call_plan (S fuel) self a;
   _ ← keep call_plan (S fuel) self b;
   x ← value self;
   y ← value self;
   mret (x, y)) w =
    (Ok (Some (OTensor a), Some (OTensor b)),
     {| promise_heap := promise_heap w;
        _objects := delete (tensor_id b) (delete (tensor_id a) (_objects w)) |}).
Proof.
  intros Hp Hta Htb Hplans Hq Hreg Hab.
  destruct Hreg as [o0 Ho0].
  unfold mbind at 1, M_bind at 1, bind at 1.
  rewrite (keep_no_plans call_plan fuel self a p w Hp Hta Hplans).
  set (w1 := kept self p a w).
  set (p1 := with_queue p (queue_obj_ids p ++ [tensor_id a])).
  assert (Hp1 : promise_heap w1 !! self = Some p1) by apply lookup_insert_eq.
  assert (Hreg1 : is_Some (_objects w1 !! _id p1)).
  { unfold w1, kept. simpl. rewrite bool_decide_eq_true_2 by eauto.
    rewrite lookup_insert. case_decide; eauto. }
  unfold mbind at 1, M_bind at 1, bind at 1.
  rewrite (keep_no_plans call_plan fuel self b p1 w1 Hp1 Htb Hplans).
  set (w2 := kept self p1 b w1).
  set (p2 := with_queue p1 (queue_obj_ids p1 ++ [tensor_id b])).
  assert (Hp2 : promise_heap w2 !! self = Some p2) by apply lookup_insert_eq.
  assert (Hq2 : queue_obj_ids p2 = [tensor_id a; tensor_id b]) by (simpl; by rewrite Hq).
  assert (Hobj2 : _objects w2 =
                    <[tensor_id b := OTensor b]> (<[tensor_id a := OTensor a]> (_objects w))).
  { unfold w2, kept. rewrite bool_decide_eq_true_2 by done.
    unfold w1, kept. simpl. by rewrite bool_decide_eq_true_2 by eauto. }
  unfold mbind at 1, M_bind at 1, bind at 1.
  rewrite (value_unfold self p2 (tensor_id a) [tensor_id b] w2 Hp2 Hq2).
  rewrite Hobj2, lookup_insert_ne, lookup_insert_eq by done.
  unfold mbind at 1, M_bind at 1, bind at 1.
  rewrite (value_unfold self (with_queue p2 [tensor_id b]) (tensor_id b) []
             (consumed self p2 (tensor_id a) [tensor_id b] w2));
    [|apply lookup_insert_eq | done].
  unfold consumed. cbn [_objects promise_heap]. rewrite Hobj2.
  rewrite lookup_delete_ne, lookup_insert_eq by done.
  unfold mret, M_ret, ret. f_equal. f_equal.
  - unfold w2, kept, w1, kept. cbn [promise_heap].
    rewrite !insert_insert_eq. change (with_queue (with_queue p2 [tensor_id b]) [])
      with (with_queue p []). rewrite <- Hq, with_queue_same. by apply insert_id.
  - apply map_eq. intros k.
    destruct (decide (k = tensor_id b)) as [->|Hkb].
    { by rewrite !lookup_delete_eq. }
    rewrite !(lookup_delete_ne _ (tensor_id b)) by done.
    destruct (decide (k = tensor_id a)) as [->|Hka].
    { by rewrite !lookup_delete_eq. }
    rewrite !lookup_delete_ne by done. by rewrite !lookup_insert_ne by done.
Qed.

(** X11. Unlike a type mismatch, a waiting plan that is missing from the
    store is found out after the promise was changed: [keep] raises
    [KeyError], and the object stays queued (and registered). *)
Theorem keep_missing_plan_keeps_mutation {Data}
    (call_plan : Plan → list (Obj Data) → Tensor Data)
    (fuel : nat) (self : nat) (obj : Tensor Data) (p : Promise) (w : Worker Data)
    (plan_id : Z) (rest : list Z) :
  promise_heap w !! self = Some p →
  obj_type p = Some (tensor_type obj) →
  plans p = plan_id :: rest →
  _objects (kept self p obj w) !! plan_id = None →
  keep call_plan (S fuel) self obj w = (Raise KeyError, kept self p obj w).
Proof.
  intros Hp Hty Hplans Hmissing.
  rewrite (keep_unfold call_plan fuel self obj p w Hp Hty), Hplans.
  simpl. unfold mbind, M_bind, bind, lookup_object, lift. by rewrite Hmissing.
Qed.

(** X12. A waiting plan fires only when all its promised arguments are
    fulfilled: when none of the promise's plans is, [keep] queues the object
    (registering it for a registered promise), calls no plan and returns the
    object. *)
Theorem keep_unfulfilled_plans_wait {Data}
    (call_plan : Plan → list (Obj Data) → Tensor Data)
    (fuel : nat) (self : nat) (obj : Tensor Data) (p : Promise) (w : Worker Data) :
  promise_heap w !! self = Some p →
  obj_type p = Some (tensor_type obj) →
  (∀ plan_id, plan_id ∈ plans p →
     ∃ plan, _objects (kept self p obj w) !! plan_id = Some (OPlan plan) ∧
             has_args_fulfilled plan (kept self p obj w) = false) →
  keep call_plan (S fuel) self obj w = (Ok obj, kept self p obj w).
Proof.
  intros Hp Hty Hwait.
  rewrite (keep_unfold call_plan fuel self obj p w Hp Hty).
  unfold mbind, M_bind, bind. by rewrite (for_plans_unfulfilled _ _ _ _ Hwait).
Qed.

(** X13. A firing whose argument collection raises (a missing argument, an
    empty queue, a promise id that names no promise) changes nothing: no
    queue entry is consumed and no object removed. *)
Theorem fire_collection_failure_consumes_nothing {Data}
    (call_plan : Plan → list (Obj Data) → Tensor Data)
    (plan : Plan) (w w' : Worker Data) (e : exn) :
  collect_args plan 0 (arg_ids plan) [] w = (Raise e, w') →
  fire call_plan plan w = (Raise e, w).
Proof.
  intros H. pose proof (collect_args_readonly _ _ _ _ _ _ _ H) as ->.
  unfold fire, mbind, M_bind, bind. by rewrite H.
Qed.

(** X14. A plan that names one promise at both of its positions is given
    the front object twice, but two queue entries are consumed: the second
    one is dropped unread; with a single entry queued the plan is still
    called, and the firing then raises [IndexError]. *)
Theorem fire_same_promise_twice {Data} (call_plan : Plan → list (Obj Data) → Tensor Data)
    (plan : Plan) (w : Worker Data) (promise_id : Z) (r : nat) (p : Promise)
    (x y front : Z) (rest : list Z) (o : Obj Data) :
  arg_ids plan = [x; y] →
  promised_args plan = [(0%nat, promise_id); (1%nat, promise_id)] →
  _objects w !! promise_id = Some (OWrapper r) →
  promise_heap w !! r = Some p →
  queue_obj_ids p = front :: rest →
  _objects w !! front = Some o →
  front ≠ promise_id →
  fire call_plan plan w =
    match rest with
    | second :: rest' =>
        (Ok ([o; o], call_plan plan [o; o]),
         {| promise_heap := <[r := with_queue p rest']> (promise_heap w);
            _objects := delete second (delete front (_objects w)) |})
    | [] =>
        (Raise IndexError,
         {| promise_heap := <[r := with_queue p []]> (promise_heap w);
            _objects := delete front (_objects w) |})
    end.
Proof.
  intros Hids Hpa Hw Hp Hq Ho Hne.
  unfold fire. rewrite Hids. unfold mbind at 1, M_bind at 1, bind at 1.
  rewrite (collect_args_promised plan 0 x [y] [] w promise_id r p front rest o)
    by (done || by rewrite Hpa).
  rewrite (collect_args_promised plan 1 y [] _ w promise_id r p front rest o)
    by (done || by rewrite Hpa).
  simpl collect_args. unfold ret at 1. rewrite Hpa. simpl fmap.
  unfold mbind at 1, M_bind at 1, bind at 1.
  rewrite (remove_from_queues_pop _ _ _ _ _ _ _ Hw Hp Hq).
  assert (Hw1 : _objects (consumed r p front rest w) !! promise_id = Some (OWrapper r)).
  { unfold consumed. simpl. by rewrite lookup_delete_ne. }
  assert (Hp1 : promise_heap (consumed r p front rest w) !! r = Some (with_queue p rest))
    by apply lookup_insert_eq.
  destruct rest as [|second rest'].
  - rewrite (remove_from_queues_empty _ _ _ _ _ Hw1 Hp1) by done. done.
  - rewrite (remove_from_queues_pop _ _ _ _ _ second rest' Hw1 Hp1) by done.
    simpl. unfold consumed. simpl. by rewrite insert_insert_eq.
Qed.

(** X15. A cascade need not end.  When the only plan waiting on a registered
    promise takes that promise as its one argument and feeds its result back
    into the same promise, every [keep] fires the plan, which keeps the
    promise again: no amount of fuel lets [keep] return. *)
Theorem keep_self_feeding_plan_diverges {Data}
    (call_plan : Plan → list (Obj Data) → Tensor Data)
    (plan : Plan) (p : Promise) (r : nat) (x : Z) (ty : string) (fuel : nat) :
  plans p = [plan_id plan] →
  queue_obj_ids p = [] →
  obj_type p = Some ty →
  arg_ids plan = [x] →
  promised_args plan = [(0%nat, _id p)] →
  promise_out_id plan = _id p →
  plan_id plan ≠ _id p →
  (∀ args, tensor_type (call_plan plan args) = ty ∧
           tensor_id (call_plan plan args) ≠ _id p ∧
           tensor_id (call_plan plan args) ≠ plan_id plan) →
  ∀ (obj : Tensor Data) (w : Worker Data),
    tensor_type obj = ty →
    tensor_id obj ≠ _id p →
    tensor_id obj ≠ plan_id plan →
    promise_heap w !! r = Some p →
    _objects w !! _id p = Some (OWrapper r) →
    _objects w !! plan_id plan = Some (OPlan plan) →
    (keep call_plan fuel r obj w).1 = Diverged.
Proof.
  intros Hplans Hq Hty Hids Hpa Hout Hpid Hcall.
  induction fuel as [|fuel IH]; intros obj w Hto Hoa Hop Hp Hw Hplan; [done|].
  rewrite (keep_unfold call_plan fuel r obj p w Hp) by (by rewrite Hty, Hto).
  rewrite Hplans.
  set (p1 := with_queue p (queue_obj_ids p ++ [tensor_id obj])).
  set (w1 := kept r p obj w).
  assert (Hobj1 : _objects w1 = <[tensor_id obj := OTensor obj]> (_objects w)).
  { unfold w1, kept. simpl. by rewrite bool_decide_eq_true_2 by (rewrite Hw; eauto). }
  assert (Hp1 : promise_heap w1 !! r = Some p1) by apply lookup_insert_eq.
  assert (Hq1 : queue_obj_ids p1 = tensor_id obj :: []) by (simpl; by rewrite Hq).
  assert (Hw1 : _objects w1 !! _id p = Some (OWrapper r))
    by (by rewrite Hobj1, lookup_insert_ne).
  assert (Hplan1 : _objects w1 !! plan_id plan = Some (OPlan plan))
    by (by rewrite Hobj1, lookup_insert_ne).
  assert (Ho1 : _objects w1 !! tensor_id obj = Some (OTensor obj))
    by (by rewrite Hobj1, lookup_insert_eq).
  assert (Hback : with_queue p1 [] = p).
  { unfold p1. rewrite with_queue_with_queue, <- Hq. apply with_queue_same. }
  clearbody w1 p1.
  assert (Hful : has_args_fulfilled plan w1 = true).
  { unfold has_args_fulfilled, promise_kept. rewrite Hpa. simpl.
    rewrite Hw1, Hp1. unfold is_kept. by rewrite Hq1. }
  set (result := call_plan plan [OTensor obj]).
  set (w2 := consumed r p1 (tensor_id obj) [] w1).
  assert (Hfire : fire call_plan plan w1 = (Ok ([OTensor obj], result), w2)).
  { unfold fire. rewrite Hids. unfold mbind at 1, M_bind at 1, bind at 1.
    rewrite (collect_args_promised plan 0 x [] [] w1 (_id p) r p1 (tensor_id obj) []
               (OTensor obj)) by (done || by rewrite Hpa).
    simpl collect_args. unfold ret at 1. rewrite Hpa. simpl fmap.
    unfold mbind at 1, M_bind at 1, bind at 1.
    by rewrite (remove_from_queues_pop _ _ _ _ _ _ _ Hw1 Hp1 Hq1). }
  assert (Hw2 : _objects w2 !! _id p = Some (OWrapper r)).
  { unfold w2, consumed. simpl. by rewrite lookup_delete_ne. }
  assert (Hplan2 : _objects w2 !! plan_id plan = Some (OPlan plan)).
  { unfold w2, consumed. simpl. by rewrite lookup_delete_ne. }
  assert (Hp2 : promise_heap w2 !! r = Some p).
  { unfold w2, consumed. simpl. by rewrite lookup_insert_eq, Hback. }
  unfold mbind at 1, M_bind at 1, bind at 1.
  rewrite (for_plans_fires call_plan _ _ _ _ _ _ _ _ r Hplan1 Hful Hfire)
    by (by rewrite Hout).
  destruct (Hcall [OTensor obj]) as (Hrt & Hra & Hrp). fold result in Hrt, Hra, Hrp.
  pose proof (IH result w2 Hrt Hra Hrp Hp2 Hw2 Hplan2) as Hrec.
  unfold mbind, M_bind, bind.
  destruct (keep call_plan fuel r result w2) as [[?| | |] ?]; simpl in Hrec;
    try discriminate.
  done.
Qed.

(** X16. When the object kept is the last argument a waiting plan was
    missing, the plan is called on the collected arguments and its result is
    kept by the plan's output promise before [keep] returns: here for a
    promise with that one plan and an output promise with no waiting plan of
    its own. *)
Theorem keep_fires_fulfilled_plan {Data}
    (call_plan : Plan → list (Obj Data) → Tensor Data)
    (fuel : nat) (self : nat) (obj : Tensor Data) (p : Promise) (w w2 : Worker Data)
    (plan : Plan) (args : list (Obj Data)) (result : Tensor Data)
    (r_out : nat) (p_out : Promise) :
  promise_heap w !! self = Some p →
  obj_type p = Some (tensor_type obj) →
  plans p = [plan_id plan] →
  _objects (kept self p obj w) !! plan_id plan = Some (OPlan plan) →
  has_args_fulfilled plan (kept self p obj w) = true →
  fire call_plan plan (kept self p obj w) = (Ok (args, result), w2) →
  _objects w2 !! promise_out_id plan = Some (OWrapper r_out) →
  promise_heap w2 !! r_out = Some p_out →
  obj_type p_out = Some (tensor_type result) →
  plans p_out = [] →
  keep call_plan (S (S fuel)) self obj w = (Ok obj, kept r_out p_out result w2).
Proof.
  intros Hp Hty Hplans Hplan Hful Hfire Hout Hpo Htyo Hplo.
  rewrite (keep_unfold call_plan (S fuel) self obj p w Hp Hty), Hplans.
  unfold mbind at 1, M_bind at 1, bind at 1.
  rewrite (for_plans_fires call_plan _ _ _ _ _ _ _ _ r_out Hplan Hful Hfire Hout).
  unfold mbind at 1, M_bind at 1, bind at 1.
  by rewrite (keep_no_plans call_plan fuel r_out result p_out w2 Hpo Htyo Hplo).
Qed.

(** *** Instances of the further properties *)

Definition promise_orphan : Promise := mkPromise 13 [] (Some "int") [99].

Definition w_orphan : Worker Z :=
  {| promise_heap := {[ 0%nat := promise_orphan ]}; _objects := ∅ |}.

(** As [w_waiting], with nothing kept yet. *)
Definition w_open : Worker Z :=
  {| promise_heap := {[ 0%nat := with_queue promise_a []; 1%nat := promise_b;
                        2%nat := promise_c ]};
     _objects := {[ 10 := OWrapper 0; 11 := OWrapper 1; 12 := OWrapper 2;
                    20 := OPlan plan20 ]} |}.

Definition plan21 : Plan :=
  {| plan_id := 21; arg_ids := [0; 0]; promised_args := [(0%nat, 10); (1%nat, 10)];
     promise_out_id := 12 |}.

Definition w_twice : Worker Z :=
  {| promise_heap := {[ 0%nat := mkPromise 10 [7; 8] (Some "int") [21] ]};
     _objects := {[ 10 := OWrapper 0; 21 := OPlan plan21;
                    7 := OTensor t7; 8 := OTensor t8 ]} |}.

Definition plan22 : Plan :=
  {| plan_id := 22; arg_ids := [0]; promised_args := [(0%nat, 12)]; promise_out_id := 12 |}.

Definition promise_loop : Promise := mkPromise 12 [] (Some "int") [22].

Definition w_loop : Worker Z :=
  {| promise_heap := {[ 2%nat := promise_loop ]};
     _objects := {[ 12 := OWrapper 2; 22 := OPlan plan22 ]} |}.

Lemma value_loses_entry_on_key_error_witness :
  value 0 w_bare_kept = (Raise KeyError, w_bare).
Proof.
  apply (value_loses_entry_on_key_error 0 (with_queue promise_bare [7]) w_bare_kept 7 []);
    reflexivity.
Defined.

Lemma keep_then_value_witness :
  (_ ← keep call_sum 1 2 t8; value 2) w_waiting = (Ok (Some (OTensor t8)), w_waiting).
Proof.
  apply (keep_then_value call_sum 0 2 t8 promise_c w_waiting); try reflexivity.
  by exists (OWrapper 2).
Defined.

Lemma keep_value_fifo_witness :
  (_ ← keep call_sum 1 2 t8;
   _ ← keep call_sum 1 2 (mkTensor 9 "int" 5);
   x ← value 2;
   y ← value 2;
   mret (x, y)) w_waiting =
    (Ok (Some (OTensor t8), Some (OTensor (mkTensor 9 "int" 5))), w_waiting).
Proof.
  apply (keep_value_fifo call_sum 0 2 t8 (mkTensor 9 "int" 5) promise_c w_waiting);
    try reflexivity; [by exists (OWrapper 2) | discriminate].
Defined.

Lemma keep_missing_plan_keeps_mutation_witness :
  keep call_sum 1 0 t7 w_orphan =
    (Raise KeyError,
     {| promise_heap := {[ 0%nat := with_queue promise_orphan [7] ]}; _objects := ∅ |}).
Proof.
  apply (keep_missing_plan_keeps_mutation call_sum 0 0 t7 promise_orphan w_orphan 99 []);
    reflexivity.
Defined.

Lemma keep_unfulfilled_plans_wait_witness :
  keep call_sum 1 0 t7 w_open = (Ok t7, w_waiting).
Proof.
  apply (keep_unfulfilled_plans_wait call_sum 0 0 t7 (with_queue promise_a []) w_open);
    try reflexivity.
  intros plan_id Hin. apply list_elem_of_In in Hin as [<-|[]].
  exists plan20. split; reflexivity.
Defined.

Lemma fire_collection_failure_consumes_nothing_witness :
  fire call_sum plan20 w_waiting = (Raise IndexError, w_waiting).
Proof.
  apply (fire_collection_failure_consumes_nothing call_sum plan20 w_waiting w_waiting).
  reflexivity.
Defined.

Lemma fire_same_promise_twice_witness :
  fire call_sum plan21 w_twice =
    (Ok ([OTensor t7; OTensor t7], mkTensor 121 "int" 84),
     {| promise_heap := {[ 0%nat := mkPromise 10 [] (Some "int") [21] ]};
        _objects := {[ 10 := OWrapper 0; 21 := OPlan plan21 ]} |}).
Proof.
  apply (fire_same_promise_twice call_sum plan21 w_twice 10 0
           (mkPromise 10 [7; 8] (Some "int") [21]) 0 0 7 [8] (OTensor t7));
    try reflexivity. discriminate.
Defined.

Lemma keep_self_feeding_plan_diverges_witness :
  (keep call_sum 1000 2 t7 w_loop).1 = Diverged.
Proof.
  apply (keep_self_feeding_plan_diverges call_sum plan22 promise_loop 2 0 "int" 1000);
    try reflexivity; try discriminate.
  intros args. repeat split; discriminate.
Defined.

Lemma keep_fires_fulfilled_plan_witness :
  keep call_sum 2 1 t8 w_waiting =
    (Ok t8, kept 2 promise_c (mkTensor 120 "int" 43) w_fired).
Proof.
  apply (keep_fires_fulfilled_plan call_sum 0 1 t8 promise_b w_waiting w_fired plan20
           [OTensor t7; OTensor t8] (mkTensor 120 "int" 43) 2 promise_c);
    reflexivity.
Defined.

End Promise.

(** ** Promises as Python instances: construction, printing, serialization

    [__str__], [simplify] and [detail] depend on which attributes an
    instance carries.  Here an instance is its attribute dictionary, filled
    by the assignments of [__init__]. *)

Module PromiseInstance.

#[warnings="-register-all"]
Inductive PyVal : Type :=
  | PNone
  | PInt (z : Z)
  | PStr (s : string)
  | PTuple (l : list PyVal)
  | PList (l : list PyVal)
  | PSet (l : list PyVal).

#[global] Instance outcome_ret : MRet outcome := fun A a => Ok a.
#[global] Instance outcome_bind : MBind outcome := fun A B k o => obind o k.

Definition is_none (v : PyVal) : bool :=
  match v with
  | PNone => true
  | _ => false
  end.

(** [len(v)] *)
Definition len (v : PyVal) : outcome Z :=
  match v with
  | PStr s => Ok (Z.of_nat (String.length s))
  | PTuple l | PList l | PSet l => Ok (Z.of_nat (length l))
  | _ => Raise TypeError
  end.

(** The characters of a string, each a string of length one. *)
Definition chars (s : string) : list PyVal :=
  (fun c => PStr (String c EmptyString)) <$> String.list_ascii_of_string s.

(** [v[i]] for a literal index [i]: tuples, lists and strings can be
    indexed, sets, numbers and [None] cannot. *)
Definition getitem (v : PyVal) (i : nat) : outcome PyVal :=
  match v with
  | PTuple l | PList l =>
      match l !! i with
      | Some x => Ok x
      | None => Raise IndexError
      end
  | PStr s =>
      match chars s !! i with
      | Some x => Ok x
      | None => Raise IndexError
      end
  | _ => Raise TypeError
  end.

(** What can be an element of a set: [None], numbers, strings and tuples of
    such; lists and sets are unhashable. *)
Fixpoint hashable (v : PyVal) : bool :=
  match v with
  | PNone | PInt _ | PStr _ => true
  | PTuple l => forallb hashable l
  | PList _ | PSet _ => false
  end.

(** [set(v)]; the order of the elements stands for the iteration order. *)
Fixpoint dedup_vals (eqb : PyVal → PyVal → bool) (l : list PyVal) : list PyVal :=
  match l with
  | [] => []
  | x :: l' => if existsb (eqb x) l' then dedup_vals eqb l' else x :: dedup_vals eqb l'
  end.

Section Instance.

(** Not part of the sources: the id [sy.ID_PROVIDER.pop()] hands out,
    [sy.serde._simplify], [sy.serde._detail], equality of Python values
    and the text an f-string gives for a value. *)
Variable ID_PROVIDER_pop : Z.
Variable _simplify : PyVal → PyVal.
Variable _detail : PyVal → PyVal.
Variable py_eqb : PyVal → PyVal → bool.
Variable format : PyVal → string.

(** [set(v)]: the elements of a tuple, list or set, or the characters of a
    string, without duplicates; [TypeError] when an element is unhashable
    or [v] is not iterable. *)
Definition set_of (v : PyVal) : outcome PyVal :=
  match v with
  | PStr s => Ok (PSet (dedup_vals py_eqb (chars s)))
  | PTuple l | PList l | PSet l =>
      if forallb hashable l then Ok (PSet (dedup_vals py_eqb l)) else Raise TypeError
  | PNone | PInt _ => Raise TypeError
  end.

(** The values [set] accepts. *)
Definition settable (v : PyVal) : Prop :=
  match v with
  | PStr _ => True
  | PTuple l | PList l | PSet l => forallb hashable l = true
  | PNone | PInt _ => False
  end.

(** [Promise.__init__(self, owner=None, id=None, obj_id=None,
    obj_type=None, plans=None)]: one insertion per assignment to
    [self]. *)
Definition __init__ (owner id obj_id obj_type plans : PyVal) : gmap string PyVal :=
  let self : gmap string PyVal := ∅ in
  let self := <["owner" := owner]> self in
  let id := if is_none id then PInt ID_PROVIDER_pop else id in
  let self := <["_id" := id]> self in
  let self := <["queue_obj_ids" := PList []]> self in
  let self := <["obj_type" := obj_type]> self in
  let plans := if is_none plans then PSet [] else plans in
  let self := <["plans" := plans]> self in
  self.

(** Reading a data attribute: the property [id] of the class gives
    [self._id]; any other name is looked up in the instance, and a name
    that is not there raises [AttributeError] (the class defines no other
    data attribute and no [__getattr__]). *)
Definition getattr (self : gmap string PyVal) (name : string) : outcome PyVal :=
  let name := if decide (name = "id") then "_id" else name in
  match self !! name with
  | Some v => Ok v
  | None => Raise AttributeError
  end.

Definition __str__ (self : gmap string PyVal) : outcome string :=
  id ← getattr self "id";
  obj_id ← getattr self "obj_id";
  plans ← getattr self "plans";
  n ← len plans;
  Ok ("<Promise(" +:+ format id +:+ ") promises Obj(id:" +:+ format obj_id
      +:+ ") blocking " +:+ format (PInt n) +:+ " plans>").

Definition __repr__ (self : gmap string PyVal) : outcome string := __str__ self.

Definition simplify (promise : gmap string PyVal) : outcome PyVal :=
  id ← getattr promise "id";
  obj_id ← getattr promise "obj_id";
  plans ← getattr promise "plans";
  Ok (PTuple [id; obj_id; _simplify plans]).

(** [Promise(promise_tuple[0], promise_tuple[1], set(_detail(promise_tuple[3])))]:
    the three arguments are positional, so they are bound to [owner], [id]
    and [obj_id]. *)
Definition detail (worker : PyVal) (promise_tuple : PyVal) : outcome (gmap string PyVal) :=
  t0 ← getitem promise_tuple 0;
  t1 ← getitem promise_tuple 1;
  t3 ← getitem promise_tuple 3;
  s ← set_of (_detail t3);
  Ok (__init__ t0 t1 s PNone PNone).

(** The portable tuple of section 6 for a promise with the given id, type
    and waiting plans. *)
Definition portable_tuple (id obj_type plans : PyVal) : PyVal :=
  PTuple [id; obj_type; _simplify plans].

(** *** The attributes of a constructed promise *)

Lemma init_attributes (owner id obj_id obj_type plans : PyVal) :
  let self := __init__ owner id obj_id obj_type plans in
  self !! "owner" = Some owner ∧
  self !! "_id" = Some (if is_none id then PInt ID_PROVIDER_pop else id) ∧
  self !! "queue_obj_ids" = Some (PList []) ∧
  self !! "obj_type" = Some obj_type ∧
  self !! "plans" = Some (if is_none plans then PSet [] else plans) ∧
  self !! "obj_id" = None.
Proof. unfold __init__. repeat split; by simplify_map_eq. Qed.

Lemma detail_three_tuple (worker a b c : PyVal) :
  detail worker (PTuple [a; b; c]) = Raise IndexError.
Proof. reflexivity. Qed.

End Instance.

(** C10. The constructor drops [obj_id]: the instance is the same whatever
    is passed for it and has no attribute of that name, so reading
    [obj_id] raises [AttributeError], and so do [__str__], [__repr__] and
    [simplify] on every constructed promise. *)
Theorem constructed_promise_has_no_obj_id
    (ID_PROVIDER_pop : Z) (_simplify : PyVal → PyVal) (format : PyVal → string)
    (owner id obj_id obj_type plans : PyVal) :
  let self := __init__ ID_PROVIDER_pop owner id obj_id obj_type plans in
  self = __init__ ID_PROVIDER_pop owner id PNone obj_type plans ∧
  self !! "obj_id" = None ∧
  getattr self "obj_id" = Raise AttributeError ∧
  __str__ format self = Raise AttributeError ∧
  __repr__ format self = Raise AttributeError ∧
  simplify _simplify self = Raise AttributeError.
Proof.
  intros self.
  destruct (init_attributes ID_PROVIDER_pop owner id obj_id obj_type plans)
    as (_ & Hid & _ & _ & _ & Hobj).
  fold self in Hid, Hobj.
  assert (Hget : getattr self "obj_id" = Raise AttributeError).
  { unfold getattr. rewrite decide_False by discriminate. by rewrite Hobj. }
  assert (Hgid : getattr self "id" = Ok (if is_none id then PInt ID_PROVIDER_pop else id)).
  { unfold getattr. simpl. by rewrite Hid. }
  assert (Hstr : __str__ format self = Raise AttributeError).
  { unfold __str__. rewrite Hgid. simpl. by rewrite Hget. }
  assert (Hsimplify : simplify _simplify self = Raise AttributeError).
  { unfold simplify. rewrite Hgid. simpl. by rewrite Hget. }
  by repeat split.
Qed.

(** C9. [simplify] does not produce a tuple and [detail] does not invert
    it: on the promise with id 1, type ["int"] and no plan, [simplify]
    raises [AttributeError]; on that promise's portable tuple [detail]
    raises [IndexError], as it does on every three-element tuple. *)
Theorem simplify_detail_no_round_trip
    (ID_PROVIDER_pop : Z) (_simplify _detail : PyVal → PyVal) (py_eqb : PyVal → PyVal → bool) :
  let promise := __init__ ID_PROVIDER_pop (PStr "worker") (PInt 1) (PInt 2) (PStr "int") (PSet []) in
  simplify _simplify promise = Raise AttributeError ∧
  detail ID_PROVIDER_pop _detail py_eqb (PStr "worker")
    (portable_tuple _simplify (PInt 1) (PStr "int") (PSet [])) = Raise IndexError.
Proof. split; reflexivity. Qed.

(** X17. [detail] needs a tuple of at least four elements (it reads index
    3).  On a longer one it returns a promise as soon as [set] accepts what
    [_detail] makes of the fourth element, and what it returns is not the
    promise that was serialized: the first element is its owner, while the
    type is [None], the set of plans is empty and the detailed plans are
    dropped with the [obj_id] argument. *)
Theorem detail_outcome
    (ID_PROVIDER_pop : Z) (_detail : PyVal → PyVal) (py_eqb : PyVal → PyVal → bool)
    (worker : PyVal) (l : list PyVal) :
  ((length l < 4)%nat →
     detail ID_PROVIDER_pop _detail py_eqb worker (PTuple l) = Raise IndexError) ∧
  (∀ promise,
     detail ID_PROVIDER_pop _detail py_eqb worker (PTuple l) = Ok promise →
     (4 ≤ length l)%nat ∧
     promise !! "owner" = l !! 0%nat ∧
     promise !! "obj_type" = Some PNone ∧
     promise !! "plans" = Some (PSet []) ∧
     promise !! "queue_obj_ids" = Some (PList []) ∧
     promise !! "obj_id" = None) ∧
  (∀ d, l !! 3%nat = Some d →
     settable (_detail d) →
     ∃ promise, detail ID_PROVIDER_pop _detail py_eqb worker (PTuple l) = Ok promise).
Proof.
  destruct l as [|a [|b [|c [|d l]]]];
    (split; [intros Hlen | split; [intros promise H | intros d' Hd Hset]]);
    try done; try (simpl in Hlen; lia).
  - unfold detail in H. simpl in H.
    destruct (set_of py_eqb (_detail d)) as [s| | |]; simpl in H; try discriminate.
    injection H as <-.
    destruct (init_attributes ID_PROVIDER_pop a b s PNone PNone)
      as (Ho & _ & Hq & Ht & Hpl & Hid).
    repeat split; try done. simpl. lia.
  - injection Hd as <-. unfold detail. simpl.
    assert (Hs : ∃ s, set_of py_eqb (_detail d) = Ok s).
    { unfold set_of. destruct (_detail d) as [|z|str|t|t|t]; simpl in Hset;
        try done; try rewrite Hset; eauto. }
    destruct Hs as [s ->]. simpl. eauto.
Qed.

(** Equality of strings, for the example below. *)
Definition str_eqb (v1 v2 : PyVal) : bool :=
  match v1, v2 with
  | PStr s1, PStr s2 => bool_decide (s1 = s2)
  | _, _ => false
  end.

Lemma detail_outcome_witness :
  detail 0 (fun v => v) str_eqb PNone (PTuple [PInt 1; PStr "int"; PSet []]) =
    Raise IndexError ∧
  ∃ promise,
    detail 0 (fun v => v) str_eqb PNone
      (PTuple [PStr "alice"; PInt 5; PStr "int"; PStr "ab"]) = Ok promise ∧
    promise !! "owner" = Some (PStr "alice") ∧
    promise !! "obj_type" = Some PNone ∧
    promise !! "plans" = Some (PSet []).
Proof.
  split.
  - apply (proj1 (detail_outcome 0 (fun v => v) str_eqb PNone
                    [PInt 1; PStr "int"; PSet []])).
    simpl. lia.
  - destruct (detail_outcome 0 (fun v => v) str_eqb PNone
                [PStr "alice"; PInt 5; PStr "int"; PStr "ab"]) as (_ & Hattr & Hret).
    destruct (Hret (PStr "ab") eq_refl I) as [promise Hp].
    exists promise. split; [exact Hp|].
    destruct (Hattr promise Hp) as (_ & Ho & Ht & Hpl & _).
    by repeat split.
Defined.

End PromiseInstance.

(** ** The checks of the multi-party linear regressor

    [BloomRegressor._check_ptrs] and [BloomRegressor._get_workers] of
    [syft/frameworks/torch/linalg/lr.py] look at the wrappers, locations and
    shapes of the tensors they are given, not at their contents. *)

Module BloomRegressor.

(** The exceptions [_check_ptrs] raises, with their messages; [IndexError]
    is what indexing a list or a shape out of range raises. *)
Inductive exception : Type :=
  | TypeError (msg : string)
  | RuntimeError (msg : string)
  | ValueError (msg : string)
  | IndexError.

(** What the checks read of a tensor: [has_child()], whether [child] is a
    [PointerTensor], [child.location] and [shape]. *)
Record Tensor : Type := mkTensor {
  has_child : bool;
  child_is_pointer : bool;
  location : string;
  shape : list Z
}.

(** The attributes of the regressor that [_check_ptrs] assigns ([None]
    while an attribute is not set). *)
Record Regressor : Type := mkRegressor {
  n_features : option Z;
  total_size : option Z;
  _dgf : option Z
}.

(** The loop over [zip(X_ptrs, y_ptrs)], with the running sums [x_size] and
    [y_size]; it returns the final [x_size]. *)
Fixpoint check_pairs (features : Z) (pairs : list (Tensor * Tensor)) (x_size y_size : Z)
  : exception + Z :=
  match pairs with
  | [] => inr x_size
  | (x, y) :: pairs' =>
      if negb (has_child x && has_child y) then
        inl (TypeError "Some tensors are not wrapped, please provide a wrapped Pointer Tensor")
      else if negb (child_is_pointer x && child_is_pointer y) then
        inl (TypeError "Some tensors are not pointers, please provided a wrapped Pointer Tensor")
      else if negb (bool_decide (location x = location y)) then
        inl (RuntimeError "Some pairs (X, y) are not located in the same worker")
      else
        match shape x !! 0%nat with
        | None => inl IndexError
        | Some x_rows =>
            let x_size := x_size + x_rows in
            match shape y !! 0%nat with
            | None => inl IndexError
            | Some y_rows =>
                let y_size := y_size + y_rows in
                if negb (bool_decide (x_size = y_size)) then
                  inl (ValueError "Some pairs (X, y) do not have the same number of samples")
                else
                  match shape x !! 1%nat with
                  | None => inl IndexError
                  | Some x_features =>
                      if negb (bool_decide (x_features = features)) then
                        inl (ValueError "Tensors do not have the same number of features")
                      else check_pairs features pairs' x_size y_size
                  end
            end
        end
  end.

(** [_check_ptrs]: the exception raised, if any, and the regressor
    afterwards. *)
Definition _check_ptrs (self : Regressor) (X_ptrs y_ptrs : list Tensor)
  : option exception * Regressor :=
  match X_ptrs !! 0%nat with
  | None => (Some IndexError, self)
  | Some x0 =>
      match shape x0 !! 1%nat with
      | None => (Some IndexError, self)
      | Some features =>
          let self := {| n_features := Some features;
                         total_size := total_size self;
                         _dgf := _dgf self |} in
          match check_pairs features (zip X_ptrs y_ptrs) 0 0 with
          | inl e => (Some e, self)
          | inr x_size =>
              (None,
               {| n_features := Some features;
                  total_size := Some x_size;
                  _dgf := Some (x_size - features) |})
          end
      end
  end.

(** [_get_workers]: the set of the locations, as a tuple in the set's
    iteration order. *)
Definition _get_workers (ptrs : list Tensor) : list string :=
  elements (foldl (fun (workers : gset string) ptr => workers ∪ {[ location ptr ]}) ∅ ptrs).

(** A pair that passes every check of the loop. *)
Definition pair_ok (features : Z) (xy : Tensor * Tensor) : Prop :=
  has_child xy.1 = true ∧ has_child xy.2 = true ∧
  child_is_pointer xy.1 = true ∧ child_is_pointer xy.2 = true ∧
  location xy.1 = location xy.2 ∧
  (∃ rows, shape xy.1 !! 0%nat = Some rows ∧ shape xy.2 !! 0%nat = Some rows) ∧
  shape xy.1 !! 1%nat = Some features.

(** The number of samples of a list of pairs. *)
Definition samples (pairs : list (Tensor * Tensor)) : Z :=
  foldr Z.add 0 ((fun xy : Tensor * Tensor => default 0 (shape xy.1 !! 0%nat)) <$> pairs).

Lemma samples_cons (x y : Tensor) (pairs : list (Tensor * Tensor)) :
  samples ((x, y) :: pairs) = default 0 (shape x !! 0%nat) + samples pairs.
Proof. done. Qed.

Lemma check_pairs_ok (features : Z) (pairs : list (Tensor * Tensor)) (size total : Z) :
  check_pairs features pairs size size = inr total ↔
  Forall (pair_ok features) pairs ∧ total = size + samples pairs.
Proof.
  revert size. induction pairs as [|[x y] pairs IH]; intros size; simpl.
  - unfold samples. simpl. split.
    + intros H. injection H as <-. split; [constructor | lia].
    + intros [_ ->]. f_equal. lia.
  - split.
    + intros H.
      destruct (has_child x) eqn:Hx; simpl in H; [|done].
      destruct (has_child y) eqn:Hy; simpl in H; [|done].
      destruct (child_is_pointer x) eqn:Hpx; simpl in H; [|done].
      destruct (child_is_pointer y) eqn:Hpy; simpl in H; [|done].
      case_bool_decide as Hloc; simpl in H; [|done].
      destruct (shape x !! 0%nat) as [xr|] eqn:Hxr; [|done].
      destruct (shape y !! 0%nat) as [yr|] eqn:Hyr; [|done].
      case_bool_decide as Hsize; simpl in H; [|done].
      destruct (shape x !! 1%nat) as [xf|] eqn:Hxf; [|done].
      case_bool_decide as Hfeat; simpl in H; [|done].
      assert (yr = xr) as -> by lia. subst xf.
      apply IH in H as [Hall ->]. split.
      * constructor; [|done]. unfold pair_ok. simpl. repeat split; try done. by exists xr.
      * rewrite samples_cons, Hxr. simpl. lia.
    + intros [Hall ->]. apply Forall_cons in Hall as [Hok Hall].
      destruct Hok as (Hx & Hy & Hpx & Hpy & Hloc & (rows & Hxr & Hyr) & Hxf).
      simpl in *. rewrite Hx, Hy, Hpx, Hpy. simpl.
      rewrite bool_decide_eq_true_2 by done. simpl. rewrite Hxr, Hyr.
      rewrite bool_decide_eq_true_2 by done. simpl. rewrite Hxf.
      rewrite bool_decide_eq_true_2 by done. simpl.
      apply IH. split; [done|]. rewrite samples_cons, Hxr. simpl. lia.
Qed.

(** X18. [_check_ptrs] returns without raising exactly when [X_ptrs] is not
    empty, its first tensor has two dimensions, and every pair of
    [zip(X_ptrs, y_ptrs)] is wrapped, made of pointers to one location,
    has as many rows in [x] as in [y], and has the features of the first
    tensor; it then sets [total_size] to the number of rows and [_dgf] to
    [total_size - n_features].  The test on the running sums thus amounts to
    a test pair by pair. *)
Theorem check_ptrs_passes_iff (self self' : Regressor) (X_ptrs y_ptrs : list Tensor) :
  _check_ptrs self X_ptrs y_ptrs = (None, self') ↔
  ∃ x0 features,
    X_ptrs !! 0%nat = Some x0 ∧
    shape x0 !! 1%nat = Some features ∧
    Forall (pair_ok features) (zip X_ptrs y_ptrs) ∧
    self' = {| n_features := Some features;
               total_size := Some (samples (zip X_ptrs y_ptrs));
               _dgf := Some (samples (zip X_ptrs y_ptrs) - features) |}.
Proof.
  unfold _check_ptrs. split.
  - intros H. destruct (X_ptrs !! 0%nat) as [x0|] eqn:Hx0; [|done].
    destruct (shape x0 !! 1%nat) as [features|] eqn:Hf; [|done].
    destruct (check_pairs _ _ _ _) as [e|total] eqn:Hc; [done|].
    apply check_pairs_ok in Hc as [Hall ->]. injection H as <-.
    exists x0, features. by rewrite !Z.add_0_l.
  - intros (x0 & features & -> & -> & Hall & ->).
    pose proof (proj2 (check_pairs_ok features (zip X_ptrs y_ptrs) 0 _) (conj Hall eq_refl))
      as Hc.
    rewrite Hc. by rewrite !Z.add_0_l.
Qed.

Lemma zip_app_short (X extra y : list Tensor) :
  (length y ≤ length X)%nat → zip (X ++ extra) y = zip X y.
Proof.
  revert y. induction X as [|x X IH]; intros [|y0 y] Hlen; simpl in *; try done; try lia.
  - by destruct extra.
  - f_equal. apply IH. lia.
Qed.

(** X19. The loop runs over [zip(X_ptrs, y_ptrs)]: the tensors of [X_ptrs]
    beyond the length of [y_ptrs] are never checked.  With [y_ptrs] empty
    every check passes, [total_size] is 0 and [_dgf] is minus the number of
    features. *)
Theorem check_ptrs_ignores_unpaired (self : Regressor) (X_ptrs extra y_ptrs : list Tensor) :
  X_ptrs ≠ [] →
  (length y_ptrs ≤ length X_ptrs)%nat →
  _check_ptrs self (X_ptrs ++ extra) y_ptrs = _check_ptrs self X_ptrs y_ptrs ∧
  ∀ x0 features,
    X_ptrs !! 0%nat = Some x0 →
    shape x0 !! 1%nat = Some features →
    _check_ptrs self (X_ptrs ++ extra) [] =
      (None, {| n_features := Some features; total_size := Some 0;
                _dgf := Some (- features) |}).
Proof.
  intros Hne Hlen. split.
  - unfold _check_ptrs. rewrite (zip_app_short _ _ _ Hlen).
    by destruct X_ptrs as [|x0 X_ptrs].
  - intros x0 features Hx0 Hf. unfold _check_ptrs.
    rewrite (lookup_app_l_Some _ _ _ _ Hx0), Hf.
    replace (zip (X_ptrs ++ extra) []) with (@nil (Tensor * Tensor))
      by (by destruct (X_ptrs ++ extra)).
    done.
Qed.


(** X21. [_get_workers] returns every location of its pointers exactly
    once, and nothing else. *)
Theorem get_workers_spec (ptrs : list Tensor) :
  NoDup (_get_workers ptrs) ∧
  ∀ worker, worker ∈ _get_workers ptrs ↔ ∃ ptr, ptr ∈ ptrs ∧ location ptr = worker.
Proof.
  unfold _get_workers. split; [apply NoDup_elements|].
  intros worker. rewrite elem_of_elements.
  assert (Hfold : ∀ (l : list Tensor) (acc : gset string),
            worker ∈ foldl (fun (workers : gset string) ptr => workers ∪ {[ location ptr ]}) acc l ↔
            worker ∈ acc ∨ ∃ ptr, ptr ∈ l ∧ location ptr = worker).
  { induction l as [|x l IH]; intros acc; simpl.
    - split; [auto|]. intros [H|(ptr & Hin & _)]; [done|]. by inversion Hin.
    - rewrite IH. rewrite elem_of_union, elem_of_singleton. split.
      + intros [[H|H]|(ptr & Hin & Hl)]; [by left | right; exists x; split; [left|done] |].
        right. exists ptr. split; [by right|done].
      + intros [H|(ptr & Hin & Hl)]; [by left; left|].
        apply elem_of_cons in Hin as [->|Hin]; [left; right; done|].
        right. by exists ptr. }
  rewrite Hfold. split; [intros [H|H]; [set_solver|done] | auto].
Qed.

(** *** Two workers, three tensors *)

Definition x_alice : Tensor := mkTensor true true "alice" [10; 3].
Definition y_alice : Tensor := mkTensor true true "alice" [10].
Definition x_bob : Tensor := mkTensor true true "bob" [5; 3].
Definition y_bob : Tensor := mkTensor true true "bob" [5; 1].
Definition x_local : Tensor := mkTensor false false "" [7; 2].

Definition unfitted : Regressor := mkRegressor None None None.

Example check_ptrs_two_workers :
  _check_ptrs unfitted [x_alice; x_bob] [y_alice; y_bob] =
    (None, mkRegressor (Some 3) (Some 15) (Some 12)).
Proof. reflexivity. Qed.

Example check_ptrs_empty : _check_ptrs unfitted [] [] = (Some IndexError, unfitted).
Proof. reflexivity. Qed.

Lemma check_ptrs_passes_iff_witness :
  ∃ x0 features,
    [x_alice; x_bob] !! 0%nat = Some x0 ∧
    shape x0 !! 1%nat = Some features ∧
    Forall (pair_ok features) (zip [x_alice; x_bob] [y_alice; y_bob]) ∧
    mkRegressor (Some 3) (Some 15) (Some 12) =
      {| n_features := Some features;
         total_size := Some (samples (zip [x_alice; x_bob] [y_alice; y_bob]));
         _dgf := Some (samples (zip [x_alice; x_bob] [y_alice; y_bob]) - features) |}.
Proof.
  apply (proj1 (check_ptrs_passes_iff unfitted (mkRegressor (Some 3) (Some 15) (Some 12))
                  [x_alice; x_bob] [y_alice; y_bob])).
  reflexivity.
Defined.

Lemma check_ptrs_ignores_unpaired_witness :
  _check_ptrs unfitted ([x_alice] ++ [x_local]) [] = (None, mkRegressor (Some 3) (Some 0) (Some (-3))).
Proof.
  destruct (check_ptrs_ignores_unpaired unfitted [x_alice] [x_local] []) as [_ H];
    [discriminate | simpl; lia | apply (H x_alice 3); reflexivity].
Defined.


End BloomRegressor.
